(** * Sensor catalogue and selection engine

    A shallow embedding of the data-access layer ([lib/sensors.ts]) and of
    the page controller ([app/page.tsx]) together with the two presentation
    components that gate its handlers ([ActionBar.tsx], [SensorList.tsx]),
    and of what these components and [SensorItem.tsx] render.

    - JavaScript [Set<string>] is modelled as a duplicate-free list kept in
      insertion order, because [Array.from] observes that order.
    - The module-level [sensorCache] is a [gmap string (list Sensor)].
    - [import()] is an oracle indexed by the number of imports issued so far,
      so that a source may answer differently on a retry.
    - An [async] function is cut at its [await]s into atomic segments. *)

From Stdlib Require Import Ascii String.
From stdpp Require Import base strings list gmap.

(** ** JavaScript [Set<string>] *)

Module JSSet.

Abbreviation t := (list string) (only parsing).

Definition empty : t := [].

Definition has (x : string) (s : t) : bool := bool_decide (x ∈ s).

(** [Set.prototype.add]: a present value keeps its position. *)
Definition add (x : string) (s : t) : t :=
  if has x s then s else s ++ [x].

Definition delete (x : string) (s : t) : t :=
  filter (λ y, y ≠ x) s.

Definition size (s : t) : nat := length s.

(** [new Set(iterable)]: the values are added one by one. *)
Definition of_list (l : list string) : t :=
  foldl (λ s x, add x s) empty l.

(** [Array.from(set)]: iteration follows insertion order. *)
Definition to_array (s : t) : list string := s.

End JSSet.

(** ** [types/sensors.ts] *)

Record Sensor := mkSensor {
  sensorId : string;
  deviceType : string;
  deviceId : string;
  deviceLabel : string;
  ipAddress : string;
  sensorLabel : string;
  sensorType : string;
  sensorUnit : string
}.

Record Location := mkLocation {
  id : string;
  name : string;
  sensorCount : nat
}.

(** ** [lib/sensors.ts]: name derivation *)

(** Characters are bytes; the three regular expressions only tell ASCII
    letters, digits and the underscore from everything else, so any other
    byte stands for a character outside [\w]. *)
Module Char.

Definition code (c : ascii) : nat := nat_of_ascii c.

(** [[a-z]] *)
Definition is_lower (c : ascii) : bool :=
  (97 <=? code c) && (code c <=? 122).

(** [[A-Z]] *)
Definition is_upper (c : ascii) : bool :=
  (65 <=? code c) && (code c <=? 90).

Definition is_digit (c : ascii) : bool :=
  (48 <=? code c) && (code c <=? 57).

Definition is_underscore (c : ascii) : bool := code c =? 95.

(** [\w], which without the [u] flag is [[A-Za-z0-9_]]. *)
Definition is_word (c : ascii) : bool :=
  is_lower c || is_upper c || is_digit c || is_underscore c.

(** [toUpperCase] on one character matched by [\w]. *)
Definition toUpperCase (c : ascii) : ascii :=
  if is_lower c then ascii_of_nat (code c - 32) else c.

Definition space : ascii := ascii_of_nat 32.

End Char.

(** [.replace(/([a-z])([A-Z])/g, "$1 $2")]: the scan is left to right and a
    match consumes both characters. *)
Fixpoint insertSpaceBeforeCapitals (s : string) : string :=
  match s with
  | EmptyString => EmptyString
  | String c1 r =>
      match r with
      | EmptyString => String c1 EmptyString
      | String c2 r2 =>
          if Char.is_lower c1 && Char.is_upper c2
          then String c1 (String Char.space (String c2 (insertSpaceBeforeCapitals r2)))
          else String c1 (insertSpaceBeforeCapitals r)
      end
  end.

(** [.replace(/_/g, " ")] *)
Fixpoint replaceUnderscores (s : string) : string :=
  match s with
  | EmptyString => EmptyString
  | String c r =>
      String (if Char.is_underscore c then Char.space else c) (replaceUnderscores r)
  end.

(** [.replace(/\b\w/g, (char) => char.toUpperCase())]: [prevWord] tells
    whether the character before the current position is a word character;
    it is read from the input, not from the replaced text. *)
Fixpoint capitalizeWordsFrom (prevWord : bool) (s : string) : string :=
  match s with
  | EmptyString => EmptyString
  | String c r =>
      String (if Char.is_word c && negb prevWord then Char.toUpperCase c else c)
             (capitalizeWordsFrom (Char.is_word c) r)
  end.

Definition capitalizeWords (s : string) : string := capitalizeWordsFrom false s.

Definition formatLocationName (id : string) : string :=
  capitalizeWords (replaceUnderscores (insertSpaceBeforeCapitals id)).

Definition getLocationName (locationId : string) : string :=
  formatLocationName locationId.

(** [const LOCATION_FILES = ["SanDiego"] as const] *)
Definition LOCATION_FILES : list string := ["SanDiego"].

(** ** [lib/sensors.ts]: cache and loaders *)

(** How a promise settles. *)
Inductive Settled (A : Type) : Type :=
| Fulfilled (value : A)
| Rejected (reason : string).
Arguments Fulfilled {A} value.
Arguments Rejected {A} reason.

(** The module state and what the module does to the outside: the
    [sensorCache] map, the list of [import()] calls issued so far, and the
    messages passed to [console.error]. *)
Record World := mkWorld {
  sensorCache : gmap string (list Sensor);
  importLog : list string;
  consoleErrors : list string
}.

Definition emptyWorld : World := mkWorld ∅ [] [].

Definition cacheSet (k : string) (v : list Sensor) (w : World) : World :=
  mkWorld (<[k:=v]> (sensorCache w)) (importLog w) (consoleErrors w).

Definition consoleError (msg : string) (w : World) : World :=
  mkWorld (sensorCache w) (importLog w) (consoleErrors w ++ [msg]).

(** Number of [import()] calls issued for [k]. *)
Definition importCount (k : string) (w : World) : nat :=
  length (filter (λ x, x = k) (importLog w)).

Section DataAccess.

(** The JSON source behind [import(`@/data/${id}.json`)]: [importData n k]
    is what the [n]-th import of the run yields for the file [k];
    [None] is a failed import. *)
Variable importData : nat → string → option (list Sensor).

Definition dynamicImport (fileId : string) (w : World)
  : option (list Sensor) * World :=
  (importData (length (importLog w)) fileId,
   mkWorld (sensorCache w) (importLog w ++ [fileId]) (consoleErrors w)).

(** The [for (const fileId of LOCATION_FILES)] loop of [getLocations]. *)
Fixpoint getLocationsLoop (files : list string) (locations : list Location)
    (w : World) : list Location * World :=
  match files with
  | [] => (locations, w)
  | fileId :: rest =>
      let '(data, w1) := dynamicImport fileId w in
      match data with
      | Some sensors =>
          let locations' :=
            locations ++ [mkLocation fileId (formatLocationName fileId) (length sensors)] in
          getLocationsLoop rest locations' (cacheSet fileId sensors w1)
      | None =>
          getLocationsLoop rest locations
            (consoleError ("Failed to load location file: " +:+ fileId +:+ ".json") w1)
      end
  end.

Definition getLocations (w : World) : Settled (list Location) * World :=
  let '(locations, w') := getLocationsLoop LOCATION_FILES [] w in
  (Fulfilled locations, w').

Definition getSensorsByLocation (locationId : string) (w : World)
  : Settled (list Sensor) * World :=
  match sensorCache w !! locationId with
  | Some sensors => (Fulfilled sensors, w)
  | None =>
      let '(data, w1) := dynamicImport locationId w in
      match data with
      | Some sensors => (Fulfilled sensors, cacheSet locationId sensors w1)
      | None =>
          (Fulfilled [],
           consoleError ("Failed to load sensors for location: " +:+ locationId) w1)
      end
  end.

(** *** Interleaved calls

    A call of [getSensorsByLocation] suspends twice: at
    [await simulateNetworkDelay()] and at [await import(...)]. Between two
    suspensions the code runs without interruption. *)
Inductive Task :=
| AwaitDelay (locationId : string)
| AwaitImport (locationId : string) (data : option (list Sensor))
| Done (result : Settled (list Sensor)).

Definition stepTask (t : Task) (w : World) : Task * World :=
  match t with
  | AwaitDelay locationId =>
      match sensorCache w !! locationId with
      | Some sensors => (Done (Fulfilled sensors), w)
      | None =>
          let '(data, w1) := dynamicImport locationId w in
          (AwaitImport locationId data, w1)
      end
  | AwaitImport locationId (Some sensors) =>
      (Done (Fulfilled sensors), cacheSet locationId sensors w)
  | AwaitImport locationId None =>
      (Done (Fulfilled []),
       consoleError ("Failed to load sensors for location: " +:+ locationId) w)
  | Done r => (Done r, w)
  end.

(** The calls in flight and the world they share. *)
Definition Pool : Type := list Task * World.

Definition stepPool (i : nat) (p : Pool) : Pool :=
  match p.1 !! i with
  | Some t => let '(t', w') := stepTask t p.2 in (<[i:=t']> p.1, w')
  | None => p
  end.

(** A schedule names, one after the other, the call that resumes. *)
Definition runPool (schedule : list nat) (p : Pool) : Pool :=
  foldl (λ q i, stepPool i q) p schedule.

(** Calls of [getSensorsByLocation] made one after the other. *)
Definition getSensorsCalls (ks : list string) (w : World) : World :=
  foldl (λ w k, (getSensorsByLocation k w).2) w ks.

End DataAccess.

Definition isDone (t : Task) : bool :=
  match t with Done _ => true | _ => false end.

Definition isAwaitDelay (t : Task) : bool :=
  match t with AwaitDelay _ => true | _ => false end.

Definition isAwaitImport (t : Task) : bool :=
  match t with AwaitImport _ _ => true | _ => false end.

(** Segments a call still has to run, at most. *)
Definition remaining (t : Task) : nat :=
  match t with AwaitDelay _ => 2 | AwaitImport _ _ => 1 | Done _ => 0 end.

(** How many elements of a list pass a test. *)
Fixpoint countb {A : Type} (f : A → bool) (l : list A) : nat :=
  match l with
  | [] => 0
  | x :: r => (if f x then 1 else 0) + countb f r
  end.

(** How often the call [i] is resumed by a schedule. *)
Definition resumptions (i : nat) (schedule : list nat) : nat :=
  countb (λ j, bool_decide (j = i)) schedule.

(** [n] calls for the same location, all started before any resumes. *)
Definition coldCalls (n : nat) (locationId : string) : list Task :=
  replicate n (AwaitDelay locationId).

(** ** [components/sensors/ActionBar.tsx] *)

Module ActionBar.

Definition hasSelection (selectedCount : nat) : bool := 0 <? selectedCount.


(** [disabled={!hasSelection || isLoading}] on the confirm button. *)
Definition disabled (selectedCount : nat) (isLoading : bool) : bool :=
  negb (hasSelection selectedCount) || isLoading.

End ActionBar.

(** ** [components/sensors/SensorList.tsx] *)

Module SensorList.

Definition allSelected (selectedCount totalCount : nat) : bool :=
  (0 <? totalCount) && (selectedCount =? totalCount).

Definition someSelected (selectedCount totalCount : nat) : bool :=
  (0 <? selectedCount) && (selectedCount <? totalCount).

Inductive HeaderState := Checked | Indeterminate | Unchecked.

(** The [data-state] of the header checkbox. *)
Definition headerState (selectedCount totalCount : nat) : HeaderState :=
  if someSelected selectedCount totalCount then Indeterminate
  else if allSelected selectedCount totalCount then Checked
  else Unchecked.

(** The ids for which [SensorListBody] renders a row, hence the ids a
    row can pass to [onToggle]. *)
Definition rows (sensors : list Sensor) : list string := sensorId <$> sensors.

End SensorList.

(** ** [app/page.tsx] *)

Module Page.

(** What a handler does besides updating the state. *)
Inductive Effect :=
| ConsoleLogRule
| ConsoleLogTitle
| ConsoleLogLocation (locationId : option string)
| ConsoleLogCount (n : nat)
| ConsoleLogSensorIds (ids : list string)
| Alert (n : nat)
| ConsoleError (msg : string)
| CallGetLocations
| CallGetSensorsByLocation (run : nat) (locationId : string).

(** The [useState] cells, the three [useRef] cells, and the [isMounted]
    variables closed over by the effects: [isMounted] has one flag per run
    of the sensors effect that declared one, and [cleanup] is the run whose
    cleanup function React currently holds. *)
Record State := mkState {
  locations : list Location;
  selectedLocationId : option string;
  isLoadingLocations : bool;
  sensors : list Sensor;
  isLoadingSensors : bool;
  selectedSensorIds : JSSet.t;
  selectedSensorIdsRef : JSSet.t;
  selectedLocationIdRef : option string;
  sensorsRef : list Sensor;
  locationsIsMounted : bool;
  isMounted : list bool;
  cleanup : option nat
}.

Definition setLocations v st :=
  mkState v (selectedLocationId st) (isLoadingLocations st) (sensors st)
    (isLoadingSensors st) (selectedSensorIds st) (selectedSensorIdsRef st)
    (selectedLocationIdRef st) (sensorsRef st) (locationsIsMounted st)
    (isMounted st) (cleanup st).

Definition setSelectedLocationId v st :=
  mkState (locations st) v (isLoadingLocations st) (sensors st)
    (isLoadingSensors st) (selectedSensorIds st) (selectedSensorIdsRef st)
    (selectedLocationIdRef st) (sensorsRef st) (locationsIsMounted st)
    (isMounted st) (cleanup st).

Definition setIsLoadingLocations v st :=
  mkState (locations st) (selectedLocationId st) v (sensors st)
    (isLoadingSensors st) (selectedSensorIds st) (selectedSensorIdsRef st)
    (selectedLocationIdRef st) (sensorsRef st) (locationsIsMounted st)
    (isMounted st) (cleanup st).

Definition setSensors v st :=
  mkState (locations st) (selectedLocationId st) (isLoadingLocations st) v
    (isLoadingSensors st) (selectedSensorIds st) (selectedSensorIdsRef st)
    (selectedLocationIdRef st) (sensorsRef st) (locationsIsMounted st)
    (isMounted st) (cleanup st).

Definition setIsLoadingSensors v st :=
  mkState (locations st) (selectedLocationId st) (isLoadingLocations st)
    (sensors st) v (selectedSensorIds st) (selectedSensorIdsRef st)
    (selectedLocationIdRef st) (sensorsRef st) (locationsIsMounted st)
    (isMounted st) (cleanup st).

Definition setSelectedSensorIds v st :=
  mkState (locations st) (selectedLocationId st) (isLoadingLocations st)
    (sensors st) (isLoadingSensors st) v (selectedSensorIdsRef st)
    (selectedLocationIdRef st) (sensorsRef st) (locationsIsMounted st)
    (isMounted st) (cleanup st).

Definition setClosures (lm : bool) (flags : list bool) (c : option nat) st :=
  mkState (locations st) (selectedLocationId st) (isLoadingLocations st)
    (sensors st) (isLoadingSensors st) (selectedSensorIds st)
    (selectedSensorIdsRef st) (selectedLocationIdRef st) (sensorsRef st)
    lm flags c.

(** The three effects that copy a state cell into its ref after a render
    in which the cell changed. *)
Definition syncRefs st :=
  mkState (locations st) (selectedLocationId st) (isLoadingLocations st)
    (sensors st) (isLoadingSensors st) (selectedSensorIds st)
    (selectedSensorIds st) (selectedLocationId st) (sensors st)
    (locationsIsMounted st) (isMounted st) (cleanup st).

(** The refs hold what the last render saw. *)
Definition synced st : Prop :=
  selectedSensorIdsRef st = selectedSensorIds st ∧
  selectedLocationIdRef st = selectedLocationId st ∧
  sensorsRef st = sensors st.

(** [!selectedLocationId]: [null] and the empty string are falsy. *)
Definition falsy (v : option string) : bool :=
  match v with
  | None => true
  | Some s => bool_decide (s = "")
  end.

(** The [useState] initial values. *)
Definition firstRender : State :=
  mkState [] None true [] false JSSet.empty JSSet.empty None [] true [] None.

(** The cleanup function returned by the last run of the sensors effect:
    [isMounted = false] on the variable of that run. *)
Definition runCleanup st :=
  match cleanup st with
  | Some run => setClosures (locationsIsMounted st) (<[run:=false]> (isMounted st)) None st
  | None => st
  end.

(** The effect on [[selectedLocationId]], run after a render in which
    that cell changed: first the previous cleanup, then the body up to the
    first [await] of [fetchSensors], then the render its updates cause. *)
Definition sensorsEffect st : State * list Effect :=
  let st := runCleanup st in
  match selectedLocationId st with
  | Some locationId =>
      if falsy (Some locationId)
      then (syncRefs (setSelectedSensorIds JSSet.empty (setSensors [] st)), [])
      else
        let run := length (isMounted st) in
        let st := setClosures (locationsIsMounted st) (isMounted st ++ [true]) (Some run) st in
        (syncRefs (setIsLoadingSensors true st), [CallGetSensorsByLocation run locationId])
  | None => (syncRefs (setSelectedSensorIds JSSet.empty (setSensors [] st)), [])
  end.

(** The page after it mounted: the locations effect issued its request
    and the sensors effect took its [!selectedLocationId] branch. *)
Definition initialState : State * list Effect :=
  let '(st, effs) := sensorsEffect firstRender in (st, CallGetLocations :: effs).

(** [fetchLocations] from the [await] on. *)
Definition fetchLocationsSettled (r : Settled (list Location)) st
  : State * list Effect :=
  let '(st1, effs) :=
    match r with
    | Fulfilled data =>
        (if locationsIsMounted st then setLocations data st else st, [])
    | Rejected reason =>
        (st, [ConsoleError ("Failed to fetch locations: " +:+ reason)])
    end in
  (if locationsIsMounted st then syncRefs (setIsLoadingLocations false st1) else st1, effs).

(** [fetchSensors] of the effect run [run], from the [await] on. The
    updates made in one continuation are applied in one render, so
    [setSensors(data)] and [setSelectedSensorIds(new Set())] take effect
    together; the state is rendered again, and the refs refreshed, only when
    a cell was set. *)
Definition fetchSensorsSettled (run : nat) (r : Settled (list Sensor)) st
  : State * list Effect :=
  let mounted := default false (isMounted st !! run) in
  let '(st1, effs) :=
    match r with
    | Fulfilled data =>
        (if mounted
         then setSelectedSensorIds JSSet.empty (setSensors data st)
         else st, [])
    | Rejected reason =>
        (st, [ConsoleError ("Failed to fetch sensors: " +:+ reason)])
    end in
  (if mounted then syncRefs (setIsLoadingSensors false st1) else st1, effs).

(** [setSelectedLocationId(locationId)]: React skips the render, and so
    the effect, when the value is the one already held. *)
Definition handleLocationChange (locationId : string) st : State * list Effect :=
  if bool_decide (selectedLocationId st = Some locationId)
  then (st, [])
  else sensorsEffect (setSelectedLocationId (Some locationId) st).

Definition toggle (sensorId : string) (prev : JSSet.t) : JSSet.t :=
  if JSSet.has sensorId prev
  then JSSet.delete sensorId prev
  else JSSet.add sensorId prev.

Definition handleToggleSensor (sensorId : string) st : State * list Effect :=
  (syncRefs (setSelectedSensorIds (toggle sensorId (selectedSensorIds st)) st), []).

Definition handleSelectAll st : State * list Effect :=
  let currentSensors := sensorsRef st in
  (syncRefs (setSelectedSensorIds (JSSet.of_list (sensorId <$> currentSensors)) st), []).

Definition handleDeselectAll st : State * list Effect :=
  (syncRefs (setSelectedSensorIds JSSet.empty st), []).

Definition handleConfirm st : State * list Effect :=
  let currentSelectedIds := selectedSensorIdsRef st in
  let currentLocationId := selectedLocationIdRef st in
  let selectedIds := JSSet.to_array currentSelectedIds in
  (st,
   [ConsoleLogRule; ConsoleLogTitle; ConsoleLogRule;
    ConsoleLogLocation currentLocationId;
    ConsoleLogCount (length selectedIds);
    ConsoleLogSensorIds selectedIds;
    ConsoleLogRule;
    Alert (length selectedIds)]).

(** The page unmounts: both cleanup functions run. *)
Definition unmount st : State :=
  let st := runCleanup st in
  setClosures false (isMounted st) (cleanup st) st.

(** A click on the confirm button of the [ActionBar], which the page
    renders when [selectedLocationId] is truthy, with [isLoading] left at
    its default [false]; a disabled button does not call [onClick]. *)
Definition clickConfirm st : State * list Effect :=
  if falsy (selectedLocationId st) then (st, [])
  else if ActionBar.disabled (JSSet.size (selectedSensorIds st)) false then (st, [])
  else handleConfirm st.

(** What goes on in the page, one event at a time. *)
Inductive Event :=
| LocationChange (locationId : string)
| ToggleSensor (sensorId : string)
| SelectAll
| DeselectAll
| Confirm
| LocationsSettled (r : Settled (list Location))
| SensorsSettled (run : nat) (r : Settled (list Sensor)).

Definition step (e : Event) st : State * list Effect :=
  match e with
  | LocationChange locationId => handleLocationChange locationId st
  | ToggleSensor sensorId => handleToggleSensor sensorId st
  | SelectAll => handleSelectAll st
  | DeselectAll => handleDeselectAll st
  | Confirm => handleConfirm st
  | LocationsSettled r => fetchLocationsSettled r st
  | SensorsSettled run r => fetchSensorsSettled run r st
  end.

Definition steps (es : list Event) st : State :=
  foldl (λ s e, (step e s).1) st es.

(** The selection handlers, which touch neither the location nor the
    catalogue. *)
Definition isSelectionEvent (e : Event) : bool :=
  match e with
  | ToggleSensor _ | SelectAll | DeselectAll | Confirm => true
  | _ => false
  end.

(** The sensor-id universe of the catalogue on display. *)
Definition universe st : gset string := list_to_set (sensorId <$> sensors st).

(** [selectedCount] and [totalCount] as the page passes them down. *)
Definition selectedCount st : nat := JSSet.size (selectedSensorIds st).
Definition totalCount st : nat := length (sensors st).

(** The values [handleConfirm] reports. *)
Record Payload := mkPayload {
  locationId : option string;
  sensorIds : list string;
  count : nat
}.

Definition payloadOf (effs : list Effect) : option Payload :=
  match effs with
  | [ConsoleLogRule; ConsoleLogTitle; ConsoleLogRule; ConsoleLogLocation l;
     ConsoleLogCount n; ConsoleLogSensorIds ids; ConsoleLogRule; Alert _] =>
      Some (mkPayload l ids n)
  | _ => None
  end.

Definition confirmPayload st : option Payload := payloadOf (handleConfirm st).2.

End Page.

(** The page and the data layer together: picking a location and letting
    the request of the effect run to its end before anything else happens. *)
Definition pickLocation (importData : nat → string → option (list Sensor))
    (locationId : string) (p : World * Page.State) : World * Page.State :=
  let '(w, st) := p in
  let '(st1, effs) := Page.handleLocationChange locationId st in
  match effs with
  | [Page.CallGetSensorsByLocation run k] =>
      let '(r, w1) := getSensorsByLocation importData k w in
      (w1, (Page.fetchSensorsSettled run r st1).1)
  | _ => (w, st1)
  end.

(** ** Sample data *)

Definition sensorOf (sid : string) : Sensor :=
  mkSensor sid "Rack PDU" "DEVICE_001" "Pod 1 - Rack A" "192.168.1.100"
    "Total Power Output" "power_watts" "W".

Definition catalogueABC : list Sensor := [sensorOf "A"; sensorOf "B"; sensorOf "C"].
Definition catalogueXY : list Sensor := [sensorOf "X"; sensorOf "Y"].

(** A source with the two catalogues of the scenarios. *)
Definition sourceL1L2 (n : nat) (k : string) : option (list Sensor) :=
  if bool_decide (k = "L1") then Some catalogueABC
  else if bool_decide (k = "L2") then Some catalogueXY
  else None.

(** A source whose first answer is a failure. *)
Definition sourceFlaky (n : nat) (k : string) : option (list Sensor) :=
  match n with
  | 0 => None
  | S _ => Some catalogueABC
  end.

(** The page showing location [L1] with its catalogue loaded. *)
Definition readyL1 : World * Page.State :=
  pickLocation sourceL1L2 "L1" (emptyWorld, Page.initialState.1).

(** The page with location [L1] picked, its catalogue delivered and the
    row of [A] clicked. *)
Definition selectedA : Page.State :=
  (Page.step (Page.ToggleSensor "A")
     (Page.step (Page.SensorsSettled 0 (Fulfilled catalogueABC))
        (Page.step (Page.LocationChange "L1") Page.initialState.1).1).1).1.

(** ** Predicates of the statements *)

(** The regular expression of the first pass, read one character at a time:
    [prevLower] tells whether the previous character is in [[a-z]]. *)
Fixpoint insertSpaceFrom (prevLower : bool) (s : string) : string :=
  match s with
  | EmptyString => EmptyString
  | String c r =>
      if prevLower && Char.is_upper c
      then String Char.space (String c (insertSpaceFrom false r))
      else String c (insertSpaceFrom (Char.is_lower c) r)
  end.

(** No [[a-z]] directly followed by [[A-Z]]. *)
Fixpoint noCamelFrom (prevLower : bool) (s : string) : bool :=
  match s with
  | EmptyString => true
  | String c r => negb (prevLower && Char.is_upper c) && noCamelFrom (Char.is_lower c) r
  end.

Fixpoint noUnderscore (s : string) : bool :=
  match s with
  | EmptyString => true
  | String c r => negb (Char.is_underscore c) && noUnderscore r
  end.

(** No word starts with a character of [[a-z]]. *)
Fixpoint capitalizedFrom (prevWord : bool) (s : string) : bool :=
  match s with
  | EmptyString => true
  | String c r =>
      negb (Char.is_word c && negb prevWord && Char.is_lower c)
      && capitalizedFrom (Char.is_word c) r
  end.

Fixpoint hasSpace (s : string) : bool :=
  match s with
  | EmptyString => false
  | String c r => bool_decide (c = Char.space) || hasSpace r
  end.

(** A letter directly followed by a digit, or a digit by a letter. *)
Fixpoint hasDigitTransitionFrom (prev : option ascii) (s : string) : bool :=
  match s with
  | EmptyString => false
  | String c r =>
      match prev with
      | Some p =>
          ((Char.is_lower p || Char.is_upper p) && Char.is_digit c)
          || (Char.is_digit p && (Char.is_lower c || Char.is_upper c))
      | None => false
      end || hasDigitTransitionFrom (Some c) r
  end.

Definition hasDigitTransition (s : string) : bool := hasDigitTransitionFrom None s.

(** Number of places where [[a-z]] is directly followed by [[A-Z]]. *)
Fixpoint camelCountFrom (prevLower : bool) (s : string) : nat :=
  match s with
  | EmptyString => 0
  | String c r =>
      (if prevLower && Char.is_upper c then 1 else 0) + camelCountFrom (Char.is_lower c) r
  end.

Definition camelCount (s : string) : nat := camelCountFrom false s.

Ltac each_char c :=
  destruct c as [[] [] [] [] [] [] [] []]; vm_compute; intuition congruence.

(** What the selection handlers leave alone. *)
Definition sameCatalogue (st1 st2 : Page.State) : Prop :=
  Page.selectedLocationId st2 = Page.selectedLocationId st1 ∧
  Page.sensors st2 = Page.sensors st1 ∧
  Page.isLoadingSensors st2 = Page.isLoadingSensors st1 ∧
  Page.isMounted st2 = Page.isMounted st1 ∧
  Page.cleanup st2 = Page.cleanup st1.

(** What holds of a listed location: the cache has a list for it, that
    list is one the source gave for it, and the count shown is its length. *)
Definition listed (importData : nat → string → option (list Sensor))
    (w : World) (loc : Location) : Prop :=
  ∃ l n, sensorCache w !! id loc = Some l ∧
         importData n (id loc) = Some l ∧ n < length (importLog w) ∧
         sensorCount loc = length l ∧
         name loc = formatLocationName (id loc).

(** A call for [k] on a source that gives [l] at every import. *)
Definition callOf (k : string) (l : list Sensor) (t : Task) : Prop :=
  t = AwaitDelay k ∨ t = AwaitImport k (Some l) ∨ t = Done (Fulfilled l).

(** What holds of such calls and of the world all along, [j] being the
    number of imports issued since the calls started in the world [w0]. *)
Definition poolInv (k : string) (l : list Sensor) (w0 : World) (p : Pool) : Prop :=
  Forall (callOf k l) p.1 ∧
  (sensorCache p.2 !! k = None ∨ sensorCache p.2 !! k = Some l) ∧
  (sensorCache p.2 !! k = None → countb isDone p.1 = 0) ∧
  ∃ j, importCount k p.2 = importCount k w0 + j ∧
       countb isAwaitImport p.1 ≤ j ∧
       j + countb isAwaitDelay p.1 ≤ length p.1 ∧
       (sensorCache p.2 !! k = Some l → 1 ≤ j).

(** ** [lib/sensors.ts]: calls of both loaders in sequence *)

Inductive Op :=
| OpGetLocations
| OpGetSensors (locationId : string).

Definition runOp (importData : nat → string → option (list Sensor))
    (op : Op) (w : World) : World :=
  match op with
  | OpGetLocations => (getLocations importData w).2
  | OpGetSensors k => (getSensorsByLocation importData k w).2
  end.

Definition runOps (importData : nat → string → option (list Sensor))
    (ops : list Op) (w : World) : World :=
  foldl (λ w op, runOp importData op w) w ops.

(** Every list in the cache is one the source gave for its key at an import
    recorded in the log. *)
Definition cacheFromSource (importData : nat → string → option (list Sensor))
    (w : World) : Prop :=
  ∀ k l, sensorCache w !! k = Some l →
    ∃ n, importLog w !! n = Some k ∧ importData n k = Some l.

(** ** [components/sensors/SensorItem.tsx] *)

Module SensorItem.

(** The own properties of [DEVICE_TYPE_ICONS]. *)
Definition DEVICE_TYPE_ICONS : list (string * string) :=
  [("Rack PDU", "🔌"); ("UPS", "🔋"); ("CRAC", "❄️"); ("CRAH", "💨");
   ("Chiller", "🧊"); ("Generator", "⚡"); ("ATS", "🔀"); ("Meter", "📊");
   ("default", "📡")].

(** The property names an object literal inherits from [Object.prototype]. *)
Definition objectPrototype : list string :=
  ["constructor"; "hasOwnProperty"; "isPrototypeOf"; "propertyIsEnumerable";
   "toLocaleString"; "toString"; "valueOf"; "__proto__";
   "__defineGetter__"; "__defineSetter__"; "__lookupGetter__"; "__lookupSetter__"].

(** What [DEVICE_TYPE_ICONS[key]] evaluates to: an own string, something
    inherited (a function, or the prototype itself), or [undefined]. *)
Inductive Value :=
| Str (s : string)
| Inherited (key : string)
| Undefined.

Fixpoint ownProperty (key : string) (props : list (string * string)) : option string :=
  match props with
  | [] => None
  | (k, v) :: rest => if bool_decide (k = key) then Some v else ownProperty key rest
  end.

Definition get (key : string) : Value :=
  match ownProperty key DEVICE_TYPE_ICONS with
  | Some s => Str s
  | None => if bool_decide (key ∈ objectPrototype) then Inherited key else Undefined
  end.

Definition truthy (v : Value) : bool :=
  match v with
  | Str s => negb (bool_decide (s = ""))
  | Inherited _ => true
  | Undefined => false
  end.

(** [DEVICE_TYPE_ICONS[deviceType] || DEVICE_TYPE_ICONS.default] *)
Definition getDeviceIcon (deviceType : string) : Value :=
  let v := get deviceType in
  if truthy v then v else get "default".

(** [sensorType.replace(/_/g, " ")] *)
Definition sensorTypeLabel (sensorType : string) : string :=
  replaceUnderscores sensorType.

End SensorItem.

(** ** [components/sensors/SensorList.tsx]: what is rendered *)

Module SensorListView.

Inductive View :=
| LoadingSkeleton
| EmptyState
| Listing (header : SensorList.HeaderState) (rows : list (string * bool)).

(** [SensorListComponent]: the skeleton while loading, the empty state for
    no sensors, else the header and one row per sensor with its
    [isSelected]. *)
Definition SensorListComponent (sensors : list Sensor) (selectedSensorIds : JSSet.t)
    (isLoading : bool) : View :=
  let selectedCount := JSSet.size selectedSensorIds in
  let totalCount := length sensors in
  if isLoading then LoadingSkeleton
  else if length sensors =? 0 then EmptyState
  else Listing (SensorList.headerState selectedCount totalCount)
         ((λ s, (sensorId s, JSSet.has (sensorId s) selectedSensorIds)) <$> sensors).

(** [handleSelectAllChange] of the header checkbox. *)
Definition handleSelectAllChange {A : Type} (selectedCount totalCount : nat)
    (onSelectAll onDeselectAll : A) : A :=
  if SensorList.allSelected selectedCount totalCount
     || SensorList.someSelected selectedCount totalCount
  then onDeselectAll
  else onSelectAll.

End SensorListView.

(** ** [components/sensors/ActionBar.tsx]: what is rendered *)

Module ActionBarView.



End ActionBarView.

(** ** [app/page.tsx]: what is rendered, and the page from its mount on *)

Module PageView.

(** [locations.find((loc) => loc.id === selectedLocationId)] *)
Definition selectedLocation (st : Page.State) : option Location :=
  match Page.selectedLocationId st with
  | Some k => List.find (λ loc, bool_decide (id loc = k)) (Page.locations st)
  | None => None
  end.

(** The title of the sensors card: [{selectedLocation?.name} Sensors]. *)
Definition cardTitle (st : Page.State) : string :=
  match selectedLocation st with
  | Some loc => name loc +:+ " Sensors"
  | None => " Sensors"
  end.

(** The [SensorList] of the sensors card. *)
Definition sensorList (st : Page.State) : SensorListView.View :=
  SensorListView.SensorListComponent (Page.sensors st) (Page.selectedSensorIds st)
    (Page.isLoadingSensors st).

(** A click on the header checkbox, which exists when the list is shown. *)
Definition clickHeader (st : Page.State) : Page.State * list Page.Effect :=
  match sensorList st with
  | SensorListView.Listing _ _ =>
      SensorListView.handleSelectAllChange (Page.selectedCount st) (Page.totalCount st)
        (Page.handleSelectAll st) (Page.handleDeselectAll st)
  | _ => (st, [])
  end.

(** The page mounts and its request for the locations is answered. *)
Definition mountApp (importData : nat → string → option (list Sensor))
    (w : World) : World * Page.State :=
  let '(r, w1) := getLocations importData w in
  (w1, (Page.fetchLocationsSettled r Page.initialState.1).1).

(** An event the page can receive in a state: a toggle comes from a row,
    so its id is one of the catalogue on display. *)
Definition enabled (st : Page.State) (e : Page.Event) : Prop :=
  match e with
  | Page.ToggleSensor x => x ∈ SensorList.rows (Page.sensors st)
  | _ => True
  end.

Inductive reachable : Page.State → Prop :=
| reachable_initial : reachable Page.initialState.1
| reachable_step e st : reachable st → enabled st e → reachable (Page.step e st).1.

(** What the page keeps: the refs hold the rendered state, the selection
    has no duplicates and lies within the catalogue on display, and the only
    effect run still mounted is the one whose cleanup React holds. *)
Definition invariant (st : Page.State) : Prop :=
  Page.synced st ∧
  NoDup (Page.selectedSensorIds st) ∧
  (∀ x, x ∈ Page.selectedSensorIds st → x ∈ sensorId <$> Page.sensors st) ∧
  (∀ i, Page.isMounted st !! i = Some true → Page.cleanup st = Some i).

End PageView.

(** The letters and digits of a name in upper case, spaces and underscores
    left out. *)
Fixpoint skeleton (s : string) : string :=
  match s with
  | EmptyString => EmptyString
  | String c r =>
      if Char.is_underscore c || bool_decide (c = Char.space)
      then skeleton r
      else String (Char.toUpperCase c) (skeleton r)
  end.

(** The selection after toggling the ids of a list in turn. *)
Definition toggleAll (xs : list string) (s : JSSet.t) : JSSet.t :=
  foldl (λ s x, Page.toggle x s) s xs.

(** * Properties *)

(** ** Name derivation *)

Lemma upper_not_lower c : Char.is_upper c = true → Char.is_lower c = false.
Proof. each_char c. Qed.

Lemma lower_is_word c : Char.is_lower c = true → Char.is_word c = true.
Proof. each_char c. Qed.

Lemma toUpperCase_not_lower c : Char.is_lower (Char.toUpperCase c) = false.
Proof. each_char c. Qed.

Lemma toUpperCase_is_word c : Char.is_word (Char.toUpperCase c) = Char.is_word c.
Proof. each_char c. Qed.

Lemma toUpperCase_underscore c :
  Char.is_underscore (Char.toUpperCase c) = Char.is_underscore c.
Proof. each_char c. Qed.

Lemma toUpperCase_fixed c : Char.is_lower c = false → Char.toUpperCase c = c.
Proof. unfold Char.toUpperCase. by intros ->. Qed.

Lemma space_classes :
  Char.is_lower Char.space = false ∧ Char.is_upper Char.space = false ∧
  Char.is_underscore Char.space = false ∧ Char.is_word Char.space = false.
Proof. by vm_compute. Qed.

Lemma underscore_classes c :
  Char.is_underscore c = true → Char.is_lower c = false ∧ Char.is_upper c = false.
Proof. each_char c. Qed.

Lemma insertSpaceBeforeCapitals_pair c1 c2 r2 :
  insertSpaceBeforeCapitals (String c1 (String c2 r2)) =
  if Char.is_lower c1 && Char.is_upper c2
  then String c1 (String Char.space (String c2 (insertSpaceBeforeCapitals r2)))
  else String c1 (insertSpaceBeforeCapitals (String c2 r2)).
Proof. reflexivity. Qed.

(** The two readings of the first pass agree. *)
Lemma insertSpace_unfold s :
  insertSpaceBeforeCapitals s = insertSpaceFrom false s ∧
  ∀ c, insertSpaceBeforeCapitals (String c s)
       = String c (insertSpaceFrom (Char.is_lower c) s).
Proof.
  induction s as [|c2 r2 [IH1 IH2]]; [done|].
  split.
  - by rewrite IH2.
  - intros c. rewrite insertSpaceBeforeCapitals_pair. cbn [insertSpaceFrom].
    destruct (Char.is_lower c && Char.is_upper c2) eqn:E.
    + by rewrite IH1.
    + by rewrite IH2.
Qed.

Lemma insertSpaceBeforeCapitals_from s :
  insertSpaceBeforeCapitals s = insertSpaceFrom false s.
Proof. apply insertSpace_unfold. Qed.

Lemma noCamelFrom_weaken s : noCamelFrom true s = true → noCamelFrom false s = true.
Proof. destruct s as [|c r]; [done|]. cbn. by intros [_ ?]%andb_prop. Qed.

Lemma insertSpaceFrom_fixed s : ∀ pl,
  noCamelFrom pl s = true → insertSpaceFrom pl s = s.
Proof.
  induction s as [|c r IH]; intros pl; [done|]. cbn.
  intros [H1 H2]%andb_prop. apply negb_true_iff in H1. rewrite H1.
  by rewrite IH.
Qed.

Lemma insertSpaceFrom_noCamel s : ∀ pl, noCamelFrom pl (insertSpaceFrom pl s) = true.
Proof.
  induction s as [|c r IH]; intros pl; [done|]. cbn.
  destruct (pl && Char.is_upper c) eqn:E.
  - apply andb_prop in E as [-> Hu]. cbn.
    destruct space_classes as (Hl & Hup & _). rewrite Hup, Hl. cbn.
    by rewrite (upper_not_lower _ Hu), IH.
  - cbn. by rewrite E, IH.
Qed.

Lemma replaceUnderscores_fixed s : noUnderscore s = true → replaceUnderscores s = s.
Proof.
  induction s as [|c r IH]; [done|]. cbn.
  intros [H1 H2]%andb_prop. apply negb_true_iff in H1. by rewrite H1, IH.
Qed.

Lemma replaceUnderscores_noUnderscore s : noUnderscore (replaceUnderscores s) = true.
Proof.
  induction s as [|c r IH]; [done|]. cbn.
  destruct (Char.is_underscore c) eqn:E; cbn; [|by rewrite E].
  destruct space_classes as (_ & _ & -> & _). done.
Qed.

Lemma replaceUnderscores_noCamel s : ∀ pl,
  noCamelFrom pl (replaceUnderscores s) = noCamelFrom pl s.
Proof.
  induction s as [|c r IH]; intros pl; [done|]. cbn.
  destruct (Char.is_underscore c) eqn:E; [|by rewrite IH].
  destruct (underscore_classes _ E) as [-> ->].
  destruct space_classes as (-> & -> & _). by rewrite IH.
Qed.

Lemma capitalizeWordsFrom_fixed s : ∀ pw,
  capitalizedFrom pw s = true → capitalizeWordsFrom pw s = s.
Proof.
  induction s as [|c r IH]; intros pw; [done|]. cbn.
  intros [H1 H2]%andb_prop. rewrite (IH _ H2). f_equal.
  destruct (Char.is_word c && negb pw) eqn:E; [|done]. cbn in H1.
  apply toUpperCase_fixed. by apply negb_true_iff.
Qed.

Lemma capitalizeWordsFrom_capitalized s : ∀ pw,
  capitalizedFrom pw (capitalizeWordsFrom pw s) = true.
Proof.
  induction s as [|c r IH]; intros pw; [done|]. cbn.
  destruct (Char.is_word c && negb pw) eqn:E.
  - rewrite toUpperCase_is_word, toUpperCase_not_lower, andb_false_r. cbn. apply IH.
  - rewrite E. cbn. apply IH.
Qed.

Lemma capitalizeWordsFrom_noUnderscore s : ∀ pw,
  noUnderscore s = true → noUnderscore (capitalizeWordsFrom pw s) = true.
Proof.
  induction s as [|c r IH]; intros pw; [done|]. cbn.
  intros [H1 H2]%andb_prop. rewrite (IH _ H2), andb_true_r.
  destruct (Char.is_word c && negb pw); [|done].
  by rewrite toUpperCase_underscore.
Qed.

Lemma capitalizeWordsFrom_noCamel s : ∀ pl pw,
  (pl = true → pw = true) →
  noCamelFrom pl s = true → noCamelFrom pl (capitalizeWordsFrom pw s) = true.
Proof.
  induction s as [|c r IH]; intros pl pw Hpl; [done|]. cbn.
  intros [H1 H2]%andb_prop.
  destruct (Char.is_word c && negb pw) eqn:E.
  - apply andb_prop in E as [Hw Hpw]. apply negb_true_iff in Hpw.
    destruct pl; [by specialize (Hpl eq_refl); congruence|]. cbn.
    rewrite toUpperCase_not_lower. apply IH; [done|].
    destruct (Char.is_lower c); [by apply noCamelFrom_weaken|done].
  - rewrite H1. cbn. apply IH; [apply lower_is_word|done].
Qed.

Lemma formatLocationName_normal s :
  let t := formatLocationName s in
  noCamelFrom false t = true ∧ noUnderscore t = true ∧ capitalizedFrom false t = true.
Proof.
  cbn. unfold formatLocationName, capitalizeWords.
  rewrite insertSpaceBeforeCapitals_from. split_and!.
  - apply capitalizeWordsFrom_noCamel; [done|].
    rewrite replaceUnderscores_noCamel. apply insertSpaceFrom_noCamel.
  - apply capitalizeWordsFrom_noUnderscore, replaceUnderscores_noUnderscore.
  - apply capitalizeWordsFrom_capitalized.
Qed.

Lemma formatLocationName_fixed t :
  noCamelFrom false t = true → noUnderscore t = true → capitalizedFrom false t = true →
  formatLocationName t = t.
Proof.
  intros H1 H2 H3. unfold formatLocationName, capitalizeWords.
  rewrite insertSpaceBeforeCapitals_from, (insertSpaceFrom_fixed _ _ H1).
  rewrite (replaceUnderscores_fixed _ H2). by apply capitalizeWordsFrom_fixed.
Qed.

Lemma insertSpaceFrom_length s : ∀ pl,
  String.length (insertSpaceFrom pl s) = String.length s + camelCountFrom pl s.
Proof.
  induction s as [|c r IH]; intros pl; [done|]. cbn.
  destruct (pl && Char.is_upper c) eqn:E; cbn; rewrite IH.
  - apply andb_prop in E as [_ Hu]. rewrite (upper_not_lower _ Hu). lia.
  - lia.
Qed.

Lemma replaceUnderscores_length s :
  String.length (replaceUnderscores s) = String.length s.
Proof. induction s as [|c r IH]; [done|]. cbn. by rewrite IH. Qed.

Lemma capitalizeWordsFrom_length s : ∀ pw,
  String.length (capitalizeWordsFrom pw s) = String.length s.
Proof. induction s as [|c r IH]; intros pw; [done|]. cbn. by rewrite IH. Qed.

(** C8, as amended. The derivation inserts one space per place where a
    lowercase letter is directly followed by an uppercase letter and none
    elsewhere (underscores are replaced, not added to), so digits and other
    separators do not split a name; its result has no such place left, no
    underscore, and no word starting in lowercase; it is idempotent on every
    string, and it maps SanDiego to San Diego and NewYork to New York. *)
Theorem formatLocationName_idempotent (s : string) :
  formatLocationName (formatLocationName s) = formatLocationName s ∧
  String.length (formatLocationName s) = String.length s + camelCount s ∧
  noCamelFrom false (formatLocationName s) = true ∧
  noUnderscore (formatLocationName s) = true ∧
  capitalizedFrom false (formatLocationName s) = true ∧
  formatLocationName "SanDiego" = "San Diego" ∧
  formatLocationName "NewYork" = "New York" ∧
  formatLocationName "san_diego" = "San Diego" ∧
  formatLocationName "San Diego" = "San Diego".
Proof.
  destruct (formatLocationName_normal s) as (H1 & H2 & H3).
  split_and!; try done.
  - by apply formatLocationName_fixed.
  - unfold formatLocationName, capitalizeWords, camelCount.
    rewrite capitalizeWordsFrom_length, replaceUnderscores_length.
    rewrite insertSpaceBeforeCapitals_from. apply insertSpaceFrom_length.
Qed.

(** C8, as stated, fails at digit transitions: Zone2 has a letter followed
    by a digit and is returned as it is, without a space; a hyphen is kept
    as well. *)
Lemma formatLocationName_digit_transition :
  ¬ (∀ s, hasDigitTransition s = true → hasSpace (formatLocationName s) = true) ∧
  hasDigitTransition "Zone2" = true ∧
  formatLocationName "Zone2" = "Zone2" ∧
  formatLocationName "rack-7b" = "Rack-7b".
Proof.
  split_and!; try reflexivity.
  intros H. specialize (H "Zone2" eq_refl). vm_compute in H. discriminate.
Qed.

(** ** JavaScript sets *)

Lemma has_true x s : JSSet.has x s = true ↔ x ∈ s.
Proof. apply bool_decide_eq_true. Qed.

Lemma has_false x s : JSSet.has x s = false ↔ x ∉ s.
Proof. apply bool_decide_eq_false. Qed.

Lemma has_iff x s1 s2 : (x ∈ s1 ↔ x ∈ s2) → JSSet.has x s1 = JSSet.has x s2.
Proof. intros H. unfold JSSet.has. by apply bool_decide_ext. Qed.

Lemma elem_of_add x y s : x ∈ JSSet.add y s ↔ x = y ∨ x ∈ s.
Proof.
  unfold JSSet.add. destruct (JSSet.has y s) eqn:E.
  - apply has_true in E. intuition (subst; auto).
  - rewrite elem_of_app, list_elem_of_singleton. tauto.
Qed.

Lemma elem_of_delete x y s : x ∈ JSSet.delete y s ↔ x ≠ y ∧ x ∈ s.
Proof. unfold JSSet.delete. by rewrite list_elem_of_filter. Qed.

Lemma NoDup_add y s : NoDup s → NoDup (JSSet.add y s).
Proof.
  intros Hs. unfold JSSet.add. destruct (JSSet.has y s) eqn:E; [done|].
  apply has_false in E. apply NoDup_app. split_and!; [done| |apply NoDup_singleton].
  intros x Hx ->%list_elem_of_singleton. done.
Qed.

Lemma NoDup_delete y s : NoDup s → NoDup (JSSet.delete y s).
Proof. apply NoDup_filter. Qed.

Lemma add_fresh y s : y ∉ s → JSSet.add y s = s ++ [y].
Proof. intros H%has_false. unfold JSSet.add. by rewrite H. Qed.

Lemma elem_of_foldl_add l : ∀ acc x,
  x ∈ foldl (λ s y, JSSet.add y s) acc l ↔ x ∈ acc ∨ x ∈ l.
Proof.
  induction l as [|y l IH]; intros acc x; cbn.
  - rewrite elem_of_nil. tauto.
  - rewrite IH, elem_of_add, elem_of_cons. tauto.
Qed.

Lemma NoDup_foldl_add l : ∀ acc,
  NoDup acc → NoDup (foldl (λ s y, JSSet.add y s) acc l).
Proof.
  induction l as [|y l IH]; intros acc H; cbn; [done|]. by apply IH, NoDup_add.
Qed.

Lemma foldl_add_NoDup l : ∀ acc,
  NoDup (acc ++ l) → foldl (λ s y, JSSet.add y s) acc l = acc ++ l.
Proof.
  induction l as [|y l IH]; intros acc H; cbn; [by rewrite app_nil_r|].
  assert (E : acc ++ y :: l = (acc ++ [y]) ++ l) by by rewrite <- app_assoc.
  rewrite E in H |- *.
  rewrite add_fresh; [by apply IH|].
  apply NoDup_app in H as (H1 & _ & _). apply NoDup_app in H1 as (_ & H2 & _).
  intros Hy. apply (H2 y Hy). by apply list_elem_of_singleton.
Qed.

Lemma elem_of_of_list x l : x ∈ JSSet.of_list l ↔ x ∈ l.
Proof. unfold JSSet.of_list. rewrite elem_of_foldl_add, elem_of_nil. tauto. Qed.

Lemma NoDup_of_list l : NoDup (JSSet.of_list l).
Proof. apply NoDup_foldl_add, NoDup_nil_2. Qed.

Lemma of_list_NoDup l : NoDup l → JSSet.of_list l = l.
Proof. intros H. unfold JSSet.of_list. by rewrite foldl_add_NoDup. Qed.


Lemma elem_of_toggle x y s :
  x ∈ Page.toggle y s ↔ (x = y ∧ y ∉ s) ∨ (x ≠ y ∧ x ∈ s).
Proof.
  unfold Page.toggle. destruct (JSSet.has y s) eqn:E.
  - apply has_true in E. rewrite elem_of_delete. intuition (subst; auto).
  - apply has_false in E. rewrite elem_of_add.
    destruct (decide (x = y)); intuition (subst; auto).
Qed.

Lemma NoDup_toggle y s : NoDup s → NoDup (Page.toggle y s).
Proof.
  intros H. unfold Page.toggle.
  destruct (JSSet.has y s); [by apply NoDup_delete|by apply NoDup_add].
Qed.

(** ** The page: selection handlers *)

Import Page.

Lemma handleToggleSensor_selection x st :
  selectedSensorIds (handleToggleSensor x st).1 = toggle x (selectedSensorIds st).
Proof. reflexivity. Qed.

Lemma has_toggle_same x s : JSSet.has x (toggle x s) = negb (JSSet.has x s).
Proof.
  destruct (JSSet.has x s) eqn:E; cbn.
  - apply has_false. rewrite elem_of_toggle. apply has_true in E. tauto.
  - apply has_true. rewrite elem_of_toggle. apply has_false in E. tauto.
Qed.

Lemma has_toggle_other x y s : y ≠ x → JSSet.has y (toggle x s) = JSSet.has y s.
Proof. intros H. apply has_iff. rewrite elem_of_toggle. tauto. Qed.

Lemma elem_of_rows x l : x ∈ SensorList.rows l ↔ x ∈ (list_to_set (sensorId <$> l) : gset string).
Proof. unfold SensorList.rows. by rewrite elem_of_list_to_set. Qed.

(** C1, as amended. [handleToggleSensor] flips the membership of the id it
    is given and of no other, whatever the catalogue on display: it carries
    no check against the universe, and an id outside of it is added like any
    other. The ids the rendered rows can pass are those of the universe. *)
Theorem handleToggleSensor_flips (st : State) (x : string) :
  let st' := (handleToggleSensor x st).1 in
  JSSet.has x (selectedSensorIds st') = negb (JSSet.has x (selectedSensorIds st)) ∧
  (∀ y, y ≠ x → JSSet.has y (selectedSensorIds st') = JSSet.has y (selectedSensorIds st)) ∧
  sensors st' = sensors st ∧
  (handleToggleSensor x st).2 = [] ∧
  (∀ y, y ∈ SensorList.rows (sensors st) ↔ y ∈ universe st).
Proof.
  cbn zeta. rewrite handleToggleSensor_selection. split_and!; try done.
  - apply has_toggle_same.
  - intros y Hy. by apply has_toggle_other.
  - intros y. apply elem_of_rows.
Qed.

(** C1, as stated, fails: with the catalogue A, B, C on display and nothing
    selected, toggling Z, which is not in the universe, selects Z. *)
Lemma toggle_unknown_id_is_added :
  let st := readyL1.2 in
  let st' := (handleToggleSensor "Z" st).1 in
  sensorId <$> sensors st = ["A"; "B"; "C"] ∧
  ("Z" ∉ universe st) ∧
  selectedSensorIds st = [] ∧
  selectedSensorIds st' = ["Z"] ∧
  JSSet.has "Z" (selectedSensorIds st') = true ∧
  (handleToggleSensor "Z" st).2 = [].
Proof.
  cbn zeta. split_and!; try reflexivity.
  unfold universe. rewrite elem_of_list_to_set.
  change (sensorId <$> sensors readyL1.2) with ["A"; "B"; "C"].
  rewrite !elem_of_cons, elem_of_nil. intros [H|[H|[H|[]]]]; discriminate.
Qed.

(** Every step leaves the refs holding the rendered state and the
    selection free of duplicates. *)
Lemma step_synced e st : synced st → synced (step e st).1.
Proof.
  intros H. destruct e as [k|x| | | |r|run r]; cbn; try done.
  - unfold handleLocationChange. case_bool_decide; [done|].
    unfold sensorsEffect.
    destruct (selectedLocationId (runCleanup (setSelectedLocationId (Some k) st))) as [k'|];
      [|done].
    by destruct (falsy (Some k')).
  - unfold fetchLocationsSettled. destruct r; by destruct (locationsIsMounted st).
  - unfold fetchSensorsSettled. destruct r; by destruct (default false (isMounted st !! run)).
Qed.

Lemma runCleanup_selection st : selectedSensorIds (runCleanup st) = selectedSensorIds st.
Proof. unfold runCleanup. by destruct (cleanup st). Qed.

Lemma step_NoDup e st :
  NoDup (selectedSensorIds st) → NoDup (selectedSensorIds (step e st).1).
Proof.
  intros H. destruct e as [k|x| | | |r|run r]; cbn; try done.
  - unfold handleLocationChange. case_bool_decide; [done|].
    unfold sensorsEffect.
    destruct (selectedLocationId (runCleanup (setSelectedLocationId (Some k) st))) as [k'|].
    + destruct (falsy (Some k')); cbn; [apply NoDup_nil_2|].
      by rewrite runCleanup_selection.
    + cbn. apply NoDup_nil_2.
  - by apply NoDup_toggle.
  - apply NoDup_of_list.
  - apply NoDup_nil_2.
  - unfold fetchLocationsSettled. destruct r; by destruct (locationsIsMounted st).
  - unfold fetchSensorsSettled.
    destruct r; destruct (default false (isMounted st !! run)); cbn; try done.
    apply NoDup_nil_2.
Qed.

Lemma steps_invariant es : ∀ st,
  synced st → NoDup (selectedSensorIds st) →
  synced (steps es st) ∧ NoDup (selectedSensorIds (steps es st)).
Proof.
  unfold steps. induction es as [|e es IH]; intros st H1 H2; [done|]. cbn [foldl].
  apply IH; [by apply step_synced|by apply step_NoDup].
Qed.

Lemma initialState_invariant :
  synced initialState.1 ∧ NoDup (selectedSensorIds initialState.1).
Proof. split; [by repeat split|apply NoDup_nil_2]. Qed.

(** ** The page: confirm *)

Lemma confirmPayload_eq st :
  confirmPayload st =
  Some (mkPayload (selectedLocationIdRef st)
          (JSSet.to_array (selectedSensorIdsRef st))
          (length (JSSet.to_array (selectedSensorIdsRef st)))).
Proof. reflexivity. Qed.

(** C2, as amended. The payload carries the location, each selected id
    once, in the order in which the ids entered the selection, and their
    number: an id toggled in goes last, and select-all enters the ids in
    catalogue order. Confirming leaves the state as it is. *)
Theorem handleConfirm_payload (st : State) :
  synced st → NoDup (selectedSensorIds st) →
  ∃ p, confirmPayload st = Some p ∧
    locationId p = selectedLocationId st ∧
    sensorIds p = JSSet.to_array (selectedSensorIds st) ∧
    count p = length (sensorIds p) ∧
    NoDup (sensorIds p) ∧
    (∀ x, x ∈ sensorIds p ↔ JSSet.has x (selectedSensorIds st) = true) ∧
    (handleConfirm st).1 = st ∧
    (∀ x, JSSet.has x (selectedSensorIds st) = false →
       selectedSensorIds (handleToggleSensor x st).1 = selectedSensorIds st ++ [x]) ∧
    (NoDup (sensorId <$> sensors st) →
       selectedSensorIds (handleSelectAll st).1 = sensorId <$> sensors st).
Proof.
  intros (Hs & Hl & Hc) Hnd. eexists. rewrite confirmPayload_eq. split; [reflexivity|].
  cbn. rewrite Hs, Hl, Hc. unfold JSSet.to_array. split_and!; try done.
  - intros x. by rewrite has_true.
  - intros x Hx. unfold toggle. rewrite Hx. apply add_fresh. by apply has_false.
  - apply of_list_NoDup.
Qed.

Lemma handleConfirm_payload_witness :
  let st := steps [ToggleSensor "C"; ToggleSensor "A"] readyL1.2 in
  synced st ∧ NoDup (selectedSensorIds st) ∧
  ∃ p, confirmPayload st = Some p ∧
    locationId p = selectedLocationId st ∧
    sensorIds p = JSSet.to_array (selectedSensorIds st) ∧
    count p = length (sensorIds p) ∧
    NoDup (sensorIds p) ∧
    (∀ x, x ∈ sensorIds p ↔ JSSet.has x (selectedSensorIds st) = true) ∧
    (handleConfirm st).1 = st ∧
    (∀ x, JSSet.has x (selectedSensorIds st) = false →
       selectedSensorIds (handleToggleSensor x st).1 = selectedSensorIds st ++ [x]) ∧
    (NoDup (sensorId <$> sensors st) →
       selectedSensorIds (handleSelectAll st).1 = sensorId <$> sensors st).
Proof.
  assert (Hs : synced (steps [ToggleSensor "C"; ToggleSensor "A"] readyL1.2))
    by (vm_compute; auto).
  assert (Hn : NoDup (selectedSensorIds (steps [ToggleSensor "C"; ToggleSensor "A"] readyL1.2)))
    by (apply (bool_decide_unpack _); vm_compute; exact I).
  exact (conj Hs (conj Hn (handleConfirm_payload _ Hs Hn))).
Defined.

(** C2, as stated, fails: with the catalogue A, B, C, toggling C and then A
    makes the payload list C before A. *)
Lemma confirm_lists_toggle_order :
  let st := steps [ToggleSensor "C"; ToggleSensor "A"] readyL1.2 in
  sensorId <$> sensors st = ["A"; "B"; "C"] ∧
  confirmPayload st = Some (mkPayload (Some "L1") ["C"; "A"] 2) ∧
  confirmPayload st ≠ Some (mkPayload (Some "L1") ["A"; "C"] 2).
Proof. cbn zeta. split_and!; [reflexivity|reflexivity|]. vm_compute. discriminate. Qed.

Lemma disabled_iff n : ActionBar.disabled n false = true ↔ n = 0.
Proof.
  unfold ActionBar.disabled, ActionBar.hasSelection. rewrite orb_false_r, negb_true_iff.
  rewrite Nat.ltb_ge. lia.
Qed.

(** C5, as amended. The guard sits in the [ActionBar]: its confirm button
    is disabled exactly when nothing is selected, and a click on it then
    calls nothing. [handleConfirm] has no guard of its own: in every state it
    reports a payload whose count is the size of the selection, zero
    included, and leaves the state as it is. The three mutations update the
    selection in every state, with or without a location or a catalogue. *)
Theorem confirm_guard_in_action_bar (st : State) :
  synced st →
  (∀ n, ActionBar.disabled n false = true ↔ n = 0) ∧
  (selectedCount st = 0 → clickConfirm st = (st, [])) ∧
  (∃ p, confirmPayload st = Some p ∧ count p = selectedCount st ∧
        sensorIds p = selectedSensorIds st) ∧
  (handleConfirm st).1 = st ∧
  (∀ x, JSSet.has x (selectedSensorIds (handleToggleSensor x st).1)
        = negb (JSSet.has x (selectedSensorIds st))) ∧
  (∀ x, x ∈ selectedSensorIds (handleSelectAll st).1 ↔ x ∈ universe st) ∧
  selectedSensorIds (handleDeselectAll st).1 = JSSet.empty.
Proof.
  intros (Hs & Hl & Hc). split_and!; try done.
  - apply disabled_iff.
  - intros H0. unfold clickConfirm. destruct (falsy (selectedLocationId st)); [done|].
    fold (selectedCount st). rewrite H0. done.
  - eexists. rewrite confirmPayload_eq. split; [reflexivity|]. cbn. by rewrite Hs.
  - intros x. rewrite handleToggleSensor_selection. apply has_toggle_same.
  - intros x. cbn. rewrite Hc, elem_of_of_list. unfold universe.
    by rewrite elem_of_list_to_set.
Qed.

Lemma confirm_guard_in_action_bar_witness :
  synced readyL1.2 ∧
  (selectedCount readyL1.2 = 0 → clickConfirm readyL1.2 = (readyL1.2, [])).
Proof.
  assert (Hs : synced readyL1.2) by (vm_compute; auto).
  split; [exact Hs|].
  exact (proj1 (proj2 (confirm_guard_in_action_bar readyL1.2 Hs))).
Defined.

(** C5, as stated, fails: with location L1 ready and nothing selected,
    [handleConfirm] runs to its end and reports a payload of zero sensors;
    and before any location is picked, a toggle selects its id. *)
Lemma confirm_empty_selection_reports :
  selectedCount readyL1.2 = 0 ∧
  handleConfirm readyL1.2 =
    (readyL1.2,
     [ConsoleLogRule; ConsoleLogTitle; ConsoleLogRule;
      ConsoleLogLocation (Some "L1"); ConsoleLogCount 0; ConsoleLogSensorIds [];
      ConsoleLogRule; Alert 0]) ∧
  confirmPayload readyL1.2 = Some (mkPayload (Some "L1") [] 0) ∧
  selectedLocationId initialState.1 = None ∧
  selectedSensorIds (handleToggleSensor "A" initialState.1).1 = ["A"].
Proof. split_and!; vm_compute; reflexivity. Qed.



(** ** The page: switching location *)

Lemma selection_step_sameCatalogue e st :
  isSelectionEvent e = true → sameCatalogue st (step e st).1.
Proof. destruct e; try discriminate; intros _; by repeat split. Qed.

Lemma selection_steps_sameCatalogue es : ∀ st,
  forallb isSelectionEvent es = true → sameCatalogue st (steps es st).
Proof.
  induction es as [|e es IH]; intros st H; [by repeat split|].
  cbn in H. apply andb_prop in H as [He Hes].
  destruct (selection_step_sameCatalogue e st He) as (H1 & H2 & H3 & H4 & H5).
  destruct (IH (step e st).1 Hes) as (G1 & G2 & G3 & G4 & G5).
  unfold steps in *. cbn. repeat split; congruence.
Qed.

Lemma runCleanup_length st : length (isMounted (runCleanup st)) = length (isMounted st).
Proof. unfold runCleanup. destruct (cleanup st); [|done]. cbn. apply length_insert. Qed.

Lemma handleLocationChange_new k st :
  selectedLocationId st ≠ Some k → k ≠ "" →
  let run := length (isMounted st) in
  let st1 := (handleLocationChange k st).1 in
  (handleLocationChange k st).2 = [CallGetSensorsByLocation run k] ∧
  selectedLocationId st1 = Some k ∧
  sensors st1 = sensors st ∧
  selectedSensorIds st1 = selectedSensorIds st ∧
  isLoadingSensors st1 = true ∧
  isMounted st1 !! run = Some true ∧
  cleanup st1 = Some run ∧
  (∀ old, cleanup st = Some old → isMounted st1 !! old = Some false ∨ length (isMounted st) ≤ old).
Proof.
  intros Hk Hne. cbn zeta. unfold handleLocationChange.
  rewrite bool_decide_eq_false_2 by done.
  unfold sensorsEffect.
  assert (Hl : selectedLocationId (runCleanup (setSelectedLocationId (Some k) st)) = Some k)
    by (unfold runCleanup; cbn; by destruct (cleanup st)).
  rewrite Hl. cbn [falsy]. rewrite bool_decide_eq_false_2 by done.
  assert (Hlen : length (isMounted (runCleanup (setSelectedLocationId (Some k) st)))
                 = length (isMounted st))
    by exact (runCleanup_length (setSelectedLocationId (Some k) st)).
  rewrite Hlen. cbn.
  split_and!; try done.
  - unfold runCleanup; cbn; by destruct (cleanup st).
  - unfold runCleanup; cbn; by destruct (cleanup st).
  - rewrite lookup_app_r by lia. rewrite Hlen, Nat.sub_diag. done.
  - intros old Hold. unfold runCleanup. cbn. rewrite Hold. cbn.
    destruct (decide (old < length (isMounted st))); [left|right; lia].
    rewrite lookup_app_l by (rewrite length_insert; lia).
    by apply list_lookup_insert_eq.
Qed.

Lemma fetchSensorsSettled_mounted run data st :
  isMounted st !! run = Some true →
  let st' := (fetchSensorsSettled run (Fulfilled data) st).1 in
  sensors st' = data ∧
  selectedSensorIds st' = JSSet.empty ∧
  isLoadingSensors st' = false ∧
  selectedLocationId st' = selectedLocationId st ∧
  synced st'.
Proof. intros H. cbn zeta. unfold fetchSensorsSettled. rewrite H. cbn. by repeat split. Qed.

(** The empty string is falsy: picking it empties catalogue and
    selection at once and starts no load. *)
Lemma handleLocationChange_empty st :
  selectedLocationId st ≠ Some "" →
  let st1 := (handleLocationChange "" st).1 in
  (handleLocationChange "" st).2 = [] ∧
  sensors st1 = [] ∧ selectedSensorIds st1 = JSSet.empty.
Proof.
  intros H. cbn zeta. unfold handleLocationChange.
  rewrite bool_decide_eq_false_2 by done. unfold sensorsEffect.
  assert (Hl : selectedLocationId (runCleanup (setSelectedLocationId (Some "") st)) = Some "")
    by (unfold runCleanup; cbn; by destruct (cleanup st)).
  rewrite Hl. done.
Qed.

(** A response that belongs to a run whose cleanup has been called is
    dropped: the state stays as it is. *)
Lemma fetchSensorsSettled_stale run r st :
  isMounted st !! run = Some false →
  (fetchSensorsSettled run r st).1 = st.
Proof. intros H. unfold fetchSensorsSettled. rewrite H. cbn. by destruct r. Qed.

(** C4. Picking another location starts a load and leaves the catalogue
    on display as it is; whatever is selected, deselected or confirmed
    meanwhile, the one step in which the load of that location delivers its
    sensors installs them and empties the selection, so that the count is 0
    and no id at all is selected once the new catalogue is on display. *)
Theorem location_switch_clears_selection
    (st : State) (k : string) (es : list Event) (data : list Sensor) :
  selectedLocationId st ≠ Some k → k ≠ "" →
  forallb isSelectionEvent es = true →
  ∃ run st1,
    handleLocationChange k st = (st1, [CallGetSensorsByLocation run k]) ∧
    let st2 := steps es st1 in
    let st3 := (fetchSensorsSettled run (Fulfilled data) st2).1 in
    sensors st2 = sensors st ∧
    selectedLocationId st3 = Some k ∧
    sensors st3 = data ∧
    selectedSensorIds st3 = JSSet.empty ∧
    selectedCount st3 = 0 ∧
    totalCount st3 = length data ∧
    isLoadingSensors st3 = false ∧
    (∀ x, JSSet.has x (selectedSensorIds st3) = false).
Proof.
  intros Hk Hne Hes.
  destruct (handleLocationChange_new k st Hk Hne) as (E & H1 & H2 & H3 & H4 & H5 & H6 & _).
  exists (length (isMounted st)), (handleLocationChange k st).1.
  split; [by rewrite <- E; destruct (handleLocationChange k st)|].
  cbn zeta.
  destruct (selection_steps_sameCatalogue es (handleLocationChange k st).1 Hes)
    as (G1 & G2 & G3 & G4 & G5).
  rewrite <- G4 in H5.
  destruct (fetchSensorsSettled_mounted _ data _ H5) as (F1 & F2 & F3 & F4 & F5).
  unfold selectedCount, totalCount. rewrite F1, F2, F3, F4, G1, G2.
  split_and!; try done.
Qed.

Lemma location_switch_clears_selection_witness :
  let st := (handleSelectAll readyL1.2).1 in
  selectedLocationId st ≠ Some "L2" ∧ "L2" ≠ "" ∧
  forallb isSelectionEvent [ToggleSensor "B"; Confirm] = true ∧
  selectedCount st = 3 ∧
  ∃ run st1,
    handleLocationChange "L2" st = (st1, [CallGetSensorsByLocation run "L2"]) ∧
    let st2 := steps [ToggleSensor "B"; Confirm] st1 in
    let st3 := (fetchSensorsSettled run (Fulfilled catalogueXY) st2).1 in
    sensors st2 = sensors st ∧
    selectedLocationId st3 = Some "L2" ∧
    sensors st3 = catalogueXY ∧
    selectedSensorIds st3 = JSSet.empty ∧
    selectedCount st3 = 0 ∧
    totalCount st3 = length catalogueXY ∧
    isLoadingSensors st3 = false ∧
    (∀ x, JSSet.has x (selectedSensorIds st3) = false).
Proof.
  assert (H1 : selectedLocationId (handleSelectAll readyL1.2).1 ≠ Some "L2")
    by (vm_compute; discriminate).
  assert (H2 : "L2" ≠ "") by discriminate.
  assert (H3 : forallb isSelectionEvent [ToggleSensor "B"; Confirm] = true) by reflexivity.
  assert (H4 : selectedCount (handleSelectAll readyL1.2).1 = 3) by (vm_compute; reflexivity).
  exact (conj H1 (conj H2 (conj H3 (conj H4
    (location_switch_clears_selection _ "L2" _ catalogueXY H1 H2 H3))))).
Defined.

(** A location picked while the load of another is pending: the earlier
    load, when it arrives, changes nothing. *)
Lemma superseded_load_is_dropped st k1 k2 r :
  selectedLocationId st ≠ Some k1 → k1 ≠ "" → k2 ≠ k1 → k2 ≠ "" →
  let st1 := (handleLocationChange k1 st).1 in
  let st2 := (handleLocationChange k2 st1).1 in
  (fetchSensorsSettled (length (isMounted st)) r st2).1 = st2.
Proof.
  intros Hk Hne Hk2 Hne2. cbn zeta.
  destruct (handleLocationChange_new k1 st Hk Hne) as (_ & H1 & _ & _ & _ & H5 & H6 & _).
  assert (Hk' : selectedLocationId (handleLocationChange k1 st).1 ≠ Some k2)
    by (rewrite H1; congruence).
  destruct (handleLocationChange_new k2 _ Hk' Hne2) as (_ & _ & _ & _ & _ & _ & _ & G).
  apply fetchSensorsSettled_stale.
  destruct (G _ H6) as [G1|G1]; [done|].
  apply lookup_lt_Some in H5. lia.
Qed.

(** While the load of the location just picked is pending, the catalogue
    and the selection of the previous location stay in place, and a confirm
    reports that selection under the id of the new location. *)
Lemma confirm_while_loading :
  let st := (handleLocationChange "L2" (handleSelectAll readyL1.2).1).1 in
  isLoadingSensors st = true ∧
  sensorId <$> sensors st = ["A"; "B"; "C"] ∧
  confirmPayload st = Some (mkPayload (Some "L2") ["A"; "B"; "C"] 3).
Proof. cbn zeta. split_and!; vm_compute; reflexivity. Qed.

(** The header scenario: with A, B, C on display, toggling B, C and C
    again leaves B selected, one of three, and the header indeterminate. *)
Lemma header_scenario :
  let st := steps [ToggleSensor "B"; ToggleSensor "C"; ToggleSensor "C"] readyL1.2 in
  selectedSensorIds st = ["B"] ∧ selectedCount st = 1 ∧ totalCount st = 3 ∧
  SensorList.headerState (selectedCount st) (totalCount st) = SensorList.Indeterminate ∧
  SensorList.headerState 3 3 = SensorList.Checked ∧
  SensorList.headerState 0 3 = SensorList.Unchecked.
Proof. cbn zeta. split_and!; vm_compute; reflexivity. Qed.

(** The location scenario end to end: with A, B, C all selected under L1,
    picking L2, whose catalogue is X, Y, leaves nothing selected out of 2. *)
Lemma pickLocation_scenario :
  let p1 := (readyL1.1, (handleSelectAll readyL1.2).1) in
  let p2 := pickLocation sourceL1L2 "L2" p1 in
  selectedCount p1.2 = 3 ∧ totalCount p1.2 = 3 ∧
  selectedCount p2.2 = 0 ∧ totalCount p2.2 = 2 ∧
  sensorId <$> sensors p2.2 = ["X"; "Y"] ∧
  selectedLocationId p2.2 = Some "L2".
Proof. cbn zeta. split_and!; vm_compute; reflexivity. Qed.

(** ** The data layer: one call at a time *)

Section DataAccessFacts.

Variable importData : nat → string → option (list Sensor).

Lemma getSensorsByLocation_hit k l w :
  sensorCache w !! k = Some l →
  getSensorsByLocation importData k w = (Fulfilled l, w).
Proof. intros H. unfold getSensorsByLocation. by rewrite H. Qed.

Lemma getSensorsByLocation_load k l w :
  sensorCache w !! k = None → importData (length (importLog w)) k = Some l →
  getSensorsByLocation importData k w =
    (Fulfilled l,
     mkWorld (<[k:=l]> (sensorCache w)) (importLog w ++ [k]) (consoleErrors w)).
Proof. intros H1 H2. unfold getSensorsByLocation, dynamicImport. by rewrite H1, H2. Qed.

Lemma getSensorsByLocation_fail k w :
  sensorCache w !! k = None → importData (length (importLog w)) k = None →
  getSensorsByLocation importData k w =
    (Fulfilled [],
     mkWorld (sensorCache w) (importLog w ++ [k])
       (consoleErrors w ++ ["Failed to load sensors for location: " +:+ k])).
Proof. intros H1 H2. unfold getSensorsByLocation, dynamicImport. by rewrite H1, H2. Qed.

(** The promise of [getSensorsByLocation] is never rejected. *)
Lemma getSensorsByLocation_fulfils k w :
  ∃ l, (getSensorsByLocation importData k w).1 = Fulfilled l.
Proof.
  unfold getSensorsByLocation, dynamicImport.
  destruct (sensorCache w !! k) as [l|]; [by exists l|].
  destruct (importData (length (importLog w)) k) as [l|]; [by exists l|by exists []].
Qed.

Lemma importCount_snoc k k' w w' :
  importLog w' = importLog w ++ [k'] →
  importCount k w' = importCount k w + (if decide (k' = k) then 1 else 0).
Proof.
  intros E. unfold importCount. rewrite E, filter_app, length_app. f_equal.
  destruct (decide (k' = k)) as [->|Hne].
  - by rewrite filter_cons_True.
  - by rewrite filter_cons_False.
Qed.

(** A call for any location keeps a warm entry and issues no import for
    its key. *)
Lemma getSensorsByLocation_keeps_warm k l k' w :
  sensorCache w !! k = Some l →
  let w' := (getSensorsByLocation importData k' w).2 in
  sensorCache w' !! k = Some l ∧ importCount k w' = importCount k w.
Proof.
  intros H. cbn zeta. unfold getSensorsByLocation.
  destruct (sensorCache w !! k') as [l'|] eqn:E; [done|].
  assert (Hne : k' ≠ k) by congruence.
  unfold dynamicImport.
  destruct (importData (length (importLog w)) k') as [l'|]; split.
  - cbn. by rewrite lookup_insert_ne.
  - rewrite (importCount_snoc k k' w) by reflexivity.
    by rewrite decide_False, Nat.add_0_r.
  - done.
  - rewrite (importCount_snoc k k' w) by reflexivity.
    by rewrite decide_False, Nat.add_0_r.
Qed.

Lemma getSensorsCalls_keeps_warm k l ks : ∀ w,
  sensorCache w !! k = Some l →
  sensorCache (getSensorsCalls importData ks w) !! k = Some l ∧
  importCount k (getSensorsCalls importData ks w) = importCount k w.
Proof.
  unfold getSensorsCalls.
  induction ks as [|k' ks IH]; intros w H; [done|]. cbn [foldl].
  destruct (getSensorsByLocation_keeps_warm k l k' w H) as [H1 H2].
  destruct (IH _ H1) as [G1 G2]. split; [done|]. congruence.
Qed.

(** C3, as amended. When the import fails, the call fulfils with the
    empty list after reporting on the console; the cache is left without
    an entry for the key, so the next call issues the import again and,
    should that one succeed, returns and caches what it read. *)
Theorem load_failure_returns_empty (k : string) (w : World) :
  sensorCache w !! k = None →
  importData (length (importLog w)) k = None →
  let r := (getSensorsByLocation importData k w).1 in
  let w' := (getSensorsByLocation importData k w).2 in
  r = Fulfilled [] ∧
  sensorCache w' = sensorCache w ∧
  sensorCache w' !! k = None ∧
  importLog w' = importLog w ++ [k] ∧
  consoleErrors w' = consoleErrors w ++ ["Failed to load sensors for location: " +:+ k] ∧
  importLog (getSensorsByLocation importData k w').2 = importLog w' ++ [k] ∧
  (∀ l, importData (length (importLog w')) k = Some l →
     (getSensorsByLocation importData k w').1 = Fulfilled l ∧
     sensorCache (getSensorsByLocation importData k w').2 !! k = Some l).
Proof.
  intros H1 H2. cbn zeta. rewrite (getSensorsByLocation_fail k w H1 H2). cbn.
  split_and!; try done.
  - unfold getSensorsByLocation, dynamicImport. cbn. rewrite H1.
    by destruct (importData (length (importLog w ++ [k])) k).
  - intros l Hl. unfold getSensorsByLocation, dynamicImport. cbn. rewrite H1.
    cbn in Hl. rewrite Hl. cbn. by rewrite lookup_insert_eq.
Qed.

(** C7. Once the cache holds a list for a location, every later call for
    that location, after any number of calls for any locations, returns
    that list and leaves the cache, the import log and the console as they
    are; in between, no import is issued for it. *)
Theorem warm_cache_is_served (k : string) (l : list Sensor) (ks : list string) (w : World) :
  sensorCache w !! k = Some l →
  let w' := getSensorsCalls importData ks w in
  getSensorsByLocation importData k w' = (Fulfilled l, w') ∧
  importCount k w' = importCount k w.
Proof.
  intros H. cbn zeta.
  destruct (getSensorsCalls_keeps_warm k l ks w H) as [H1 H2].
  split; [by apply getSensorsByLocation_hit|done].
Qed.

(** A successful cold load is what makes the entry warm. *)
Lemma cold_load_warms_cache k l w :
  sensorCache w !! k = None → importData (length (importLog w)) k = Some l →
  (getSensorsByLocation importData k w).1 = Fulfilled l ∧
  sensorCache (getSensorsByLocation importData k w).2 !! k = Some l ∧
  importCount k (getSensorsByLocation importData k w).2 = importCount k w + 1.
Proof.
  intros H1 H2. rewrite (getSensorsByLocation_load k l w H1 H2).
  split_and!; [done|cbn; by rewrite lookup_insert_eq|].
  rewrite (importCount_snoc k k w) by reflexivity. by rewrite decide_True.
Qed.

(** *** [getLocations] *)

Lemma getLocationsLoop_listed files : ∀ locations w,
  NoDup files →
  (∀ loc, loc ∈ locations → (id loc ∉ files) ∧ listed importData w loc) →
  ∀ loc, loc ∈ (getLocationsLoop importData files locations w).1 →
         listed importData (getLocationsLoop importData files locations w).2 loc.
Proof.
  induction files as [|f files IH]; intros locations w Hnd Hlocs loc; cbn.
  - intros Hin. by apply Hlocs.
  - apply NoDup_cons in Hnd as [Hf Hnd].
    destruct (importData (length (importLog w)) f) as [l|] eqn:E.
    + apply IH; [done|]. intros loc' [Hin|Hin]%elem_of_app.
      * destruct (Hlocs _ Hin) as [Hnot (l' & n & G1 & G2 & G3 & G4 & G5)].
        apply not_elem_of_cons in Hnot as [Hne Hnot]. split; [done|].
        exists l', n. cbn. rewrite lookup_insert_ne by done.
        rewrite length_app. cbn. split_and!; try done. lia.
      * apply list_elem_of_singleton in Hin as ->. cbn. split; [done|].
        exists l, (length (importLog w)). cbn. rewrite lookup_insert_eq, length_app.
        cbn. split_and!; try done. lia.
    + apply IH; [done|]. intros loc' Hin.
      destruct (Hlocs _ Hin) as [Hnot (l' & n & G1 & G2 & G3 & G4 & G5)].
      apply not_elem_of_cons in Hnot as [Hne Hnot]. split; [done|].
      exists l', n. cbn. rewrite length_app. cbn. split_and!; try done. lia.
Qed.

Lemma NoDup_LOCATION_FILES : NoDup LOCATION_FILES.
Proof. unfold LOCATION_FILES. apply NoDup_singleton. Qed.

(** What [getLocations] returns is in the cache. *)
Lemma getLocations_listed_cached (w : World) :
  ∃ locations,
    (getLocations importData w).1 = Fulfilled locations ∧
    ∀ loc, loc ∈ locations →
      ∃ l, sensorCache (getLocations importData w).2 !! id loc = Some l ∧
           sensorCount loc = length l ∧
           (∃ n, importData n (id loc) = Some l) ∧
           getSensorsByLocation importData (id loc) (getLocations importData w).2
             = (Fulfilled l, (getLocations importData w).2).
Proof.
  unfold getLocations.
  pose proof (getLocationsLoop_listed LOCATION_FILES [] w NoDup_LOCATION_FILES) as H.
  destruct (getLocationsLoop importData LOCATION_FILES [] w) as [locations w'] eqn:E.
  exists locations. split; [done|]. intros loc Hin. cbn in *.
  destruct (H (λ loc' Hin', False_ind _ (not_elem_of_nil _ Hin')) loc Hin)
    as (l & n & G1 & G2 & G3 & G4 & G5).
  exists l. split_and!; try done; [by exists n|by apply getSensorsByLocation_hit].
Qed.

(** A listed file whose import succeeds is returned and cached. *)
Lemma getLocations_lists_imported (w : World) (i : nat) (f : string) (l : list Sensor) :
  LOCATION_FILES !! i = Some f →
  importData (length (importLog w) + i) f = Some l →
  ∃ locations,
    (getLocations importData w).1 = Fulfilled locations ∧
    mkLocation f (formatLocationName f) (length l) ∈ locations ∧
    sensorCache (getLocations importData w).2 !! f = Some l.
Proof.
  unfold LOCATION_FILES. intros Hi Hl.
  destruct i as [|i]; [|by destruct i]. injection Hi as <-.
  rewrite Nat.add_0_r in Hl.
  unfold getLocations, LOCATION_FILES. cbn. unfold dynamicImport. rewrite Hl. cbn.
  eexists. split; [reflexivity|]. split.
  - apply elem_of_cons. by left.
  - apply lookup_insert_eq.
Qed.

(** C10. [getLocations] always fulfils. Every listed file whose import
    succeeds is among the locations it returns, counted from the list read,
    and the cache then holds that list under its id: caching comes with
    listing. For every location it returns, the cache holds the list
    imported for that location, whose length is the count shown, and a call
    of [getSensorsByLocation] for it returns that list and leaves the cache,
    the import log and the console as they are. *)
Theorem getLocations_fills_cache (w : World) :
  let w' := (getLocations importData w).2 in
  ∃ locations,
    (getLocations importData w).1 = Fulfilled locations ∧
    (∀ i f l, LOCATION_FILES !! i = Some f →
       importData (length (importLog w) + i) f = Some l →
       mkLocation f (formatLocationName f) (length l) ∈ locations ∧
       sensorCache w' !! f = Some l ∧
       getSensorsByLocation importData f w' = (Fulfilled l, w')) ∧
    (∀ loc, loc ∈ locations →
      ∃ l, sensorCache w' !! id loc = Some l ∧
           sensorCount loc = length l ∧
           (∃ n, importData n (id loc) = Some l) ∧
           getSensorsByLocation importData (id loc) w' = (Fulfilled l, w')).
Proof.
  cbn zeta. destruct (getLocations_listed_cached w) as (locations & E & H).
  exists locations. split; [exact E|]. split; [|exact H].
  intros i f l Hi Hl.
  destruct (getLocations_lists_imported w i f l Hi Hl) as (locations' & E' & Hin & Hc).
  rewrite E in E'. injection E' as <-.
  split_and!; [exact Hin|exact Hc|by apply getSensorsByLocation_hit].
Qed.

(** [getLocations] does not look at the cache: it imports every listed
    file again and replaces its entry. *)
Lemma getLocations_imports_again (w : World) :
  importLog (getLocations importData w).2 = importLog w ++ LOCATION_FILES.
Proof.
  unfold getLocations, LOCATION_FILES. cbn.
  by destruct (importData (length (importLog w)) "SanDiego").
Qed.

End DataAccessFacts.

(** A source that holds the one listed file. *)
Lemma getLocations_fills_cache_witness :
  let src := λ (_ : nat) (_ : string), Some catalogueABC in
  let w' := (getLocations src emptyWorld).2 in
  LOCATION_FILES !! 0 = Some "SanDiego" ∧
  src (length (importLog emptyWorld) + 0) "SanDiego" = Some catalogueABC ∧
  (getLocations src emptyWorld).1 = Fulfilled [mkLocation "SanDiego" "San Diego" 3] ∧
  sensorCache w' !! "SanDiego" = Some catalogueABC ∧
  getSensorsByLocation src "SanDiego" w' = (Fulfilled catalogueABC, w').
Proof.
  cbn zeta.
  assert (H1 : LOCATION_FILES !! 0 = Some "SanDiego") by reflexivity.
  assert (H2 : (λ (_ : nat) (_ : string), Some catalogueABC)
                 (length (importLog emptyWorld) + 0) "SanDiego" = Some catalogueABC)
    by reflexivity.
  assert (H3 : (getLocations (λ _ _, Some catalogueABC) emptyWorld).1
               = Fulfilled [mkLocation "SanDiego" "San Diego" 3])
    by (vm_compute; reflexivity).
  destruct (getLocations_fills_cache (λ _ _, Some catalogueABC) emptyWorld)
    as (locations & _ & G & _).
  destruct (G 0 "SanDiego" catalogueABC H1 H2) as (_ & G2 & G3).
  exact (conj H1 (conj H2 (conj H3 (conj G2 G3)))).
Defined.

Lemma load_failure_returns_empty_witness :
  sensorCache emptyWorld !! "L1" = None ∧
  sourceFlaky (length (importLog emptyWorld)) "L1" = None ∧
  (getSensorsByLocation sourceFlaky "L1" emptyWorld).1 = Fulfilled [] ∧
  (getSensorsByLocation sourceFlaky "L1"
     (getSensorsByLocation sourceFlaky "L1" emptyWorld).2).1 = Fulfilled catalogueABC.
Proof.
  assert (H1 : sensorCache emptyWorld !! "L1" = None) by reflexivity.
  assert (H2 : sourceFlaky (length (importLog emptyWorld)) "L1" = None) by reflexivity.
  pose proof (load_failure_returns_empty sourceFlaky "L1" emptyWorld H1 H2) as H.
  cbn zeta in H. destruct H as (G1 & _ & _ & _ & _ & _ & G2).
  exact (conj H1 (conj H2 (conj G1 (proj1 (G2 catalogueABC eq_refl))))).
Defined.

(** C3, as stated, fails: for a location whose import fails, the call is
    not rejected; it fulfils with the empty list. *)
Lemma load_failure_is_fulfilled :
  sensorCache emptyWorld !! "L1" = None ∧
  sourceFlaky 0 "L1" = None ∧
  (getSensorsByLocation sourceFlaky "L1" emptyWorld).1 = Fulfilled [] ∧
  (∀ reason, (getSensorsByLocation sourceFlaky "L1" emptyWorld).1 ≠ Rejected reason).
Proof. split_and!; try reflexivity. intros reason. vm_compute. discriminate. Qed.

Lemma warm_cache_is_served_witness :
  let w := (getSensorsByLocation sourceL1L2 "L1" emptyWorld).2 in
  let w' := getSensorsCalls sourceL1L2 ["L2"; "L1"; "L3"] w in
  sensorCache w !! "L1" = Some catalogueABC ∧
  getSensorsByLocation sourceL1L2 "L1" w' = (Fulfilled catalogueABC, w') ∧
  importCount "L1" w' = importCount "L1" w.
Proof.
  assert (H : sensorCache (getSensorsByLocation sourceL1L2 "L1" emptyWorld).2 !! "L1"
              = Some catalogueABC) by (vm_compute; reflexivity).
  exact (conj H (warm_cache_is_served sourceL1L2 "L1" catalogueABC ["L2"; "L1"; "L3"] _ H)).
Defined.

(** ** The data layer: calls in flight together *)

Lemma countb_insert {A} (f : A → bool) (l : list A) : ∀ i t t',
  l !! i = Some t →
  countb f (<[i:=t']> l) + (if f t then 1 else 0)
  = countb f l + (if f t' then 1 else 0).
Proof.
  induction l as [|x l IH]; intros i t t' H; [done|].
  destruct i as [|i].
  - injection H as ->. cbn. destruct (f t), (f t'); lia.
  - change (<[S i:=t']> (x :: l)) with (x :: <[i:=t']> l).
    change ((x :: l) !! S i) with (l !! i) in H.
    specialize (IH i t t' H). cbn [countb]. lia.
Qed.

Lemma countb_replicate {A} (f : A → bool) n x :
  countb f (replicate n x) = if f x then n else 0.
Proof. induction n as [|n IH]; cbn; [by destruct (f x)|]. rewrite IH. by destruct (f x). Qed.

Lemma countb_all {A} (f : A → bool) (l : list A) :
  forallb f l = true → countb f l = length l.
Proof.
  induction l as [|x l IH]; [done|]. cbn. intros [H1 H2]%andb_prop.
  by rewrite H1, IH.
Qed.

Lemma forallb_lookup {A} (f : A → bool) (l : list A) :
  (∀ i x, l !! i = Some x → f x = true) → forallb f l = true.
Proof.
  induction l as [|x l IH]; intros H; [done|]. cbn.
  rewrite (H 0 x eq_refl). apply IH. intros i y Hy. by apply (H (S i)).
Qed.

Section PoolFacts.

Variable importData : nat → string → option (list Sensor).

Lemma stepPool_length i p : length (stepPool importData i p).1 = length p.1.
Proof.
  unfold stepPool. destruct (p.1 !! i) as [t|]; [|done].
  destruct (stepTask importData t p.2). cbn. apply length_insert.
Qed.

Lemma stepPool_lookup_eq i p t :
  p.1 !! i = Some t →
  (stepPool importData i p).1 !! i = Some (stepTask importData t p.2).1.
Proof.
  intros H. unfold stepPool. rewrite H.
  destruct (stepTask importData t p.2). cbn.
  apply list_lookup_insert_eq. by apply lookup_lt_Some in H.
Qed.

Lemma stepPool_lookup_ne i j p :
  i ≠ j → (stepPool importData i p).1 !! j = p.1 !! j.
Proof.
  intros H. unfold stepPool. destruct (p.1 !! i) as [t|]; [|done].
  destruct (stepTask importData t p.2). cbn. by apply list_lookup_insert_ne.
Qed.

Lemma runPool_cons i schedule p :
  runPool importData (i :: schedule) p
  = runPool importData schedule (stepPool importData i p).
Proof. reflexivity. Qed.

Lemma runPool_length schedule : ∀ p,
  length (runPool importData schedule p).1 = length p.1.
Proof.
  induction schedule as [|i schedule IH]; intros p; [done|].
  by rewrite runPool_cons, IH, stepPool_length.
Qed.

Lemma stepTask_remaining t w :
  remaining (stepTask importData t w).1 ≤ pred (remaining t).
Proof.
  destruct t as [k|k [l|]|r]; cbn; try lia.
  destruct (sensorCache w !! k); cbn; lia.
Qed.

(** Every resumption of a call brings it one segment closer to its end,
    whatever the other calls do. *)
Lemma runPool_remaining schedule : ∀ p i t,
  p.1 !! i = Some t →
  ∃ t', (runPool importData schedule p).1 !! i = Some t' ∧
        remaining t' ≤ remaining t - resumptions i schedule.
Proof.
  induction schedule as [|j schedule IH]; intros p i t H.
  - exists t. split; [done|]. cbn. lia.
  - rewrite runPool_cons. unfold resumptions. cbn [countb]. fold (resumptions i schedule).
    destruct (decide (j = i)) as [->|Hne].
    + rewrite bool_decide_eq_true_2 by done.
      destruct (IH _ i _ (stepPool_lookup_eq i p t H)) as (t' & H1 & H2).
      exists t'. split; [done|]. pose proof (stepTask_remaining t p.2). lia.
    + rewrite bool_decide_eq_false_2 by done.
      assert (H' : (stepPool importData j p).1 !! i = Some t)
        by by rewrite stepPool_lookup_ne.
      destruct (IH _ i _ H') as (t' & H1 & H2).
      exists t'. split; [done|]. lia.
Qed.

Lemma runPool_all_done schedule n k w :
  (∀ i, i < n → 2 ≤ resumptions i schedule) →
  forallb isDone (runPool importData schedule (coldCalls n k, w)).1 = true.
Proof.
  intros Hfair. apply forallb_lookup. intros i t Ht.
  pose proof (lookup_lt_Some _ _ _ Ht) as Hi.
  rewrite runPool_length in Hi. cbn in Hi. unfold coldCalls in Hi.
  rewrite length_replicate in Hi.
  assert (H0 : (coldCalls n k, w).1 !! i = Some (AwaitDelay k))
    by (cbn; by apply lookup_replicate_2).
  destruct (runPool_remaining schedule _ i _ H0) as (t' & H1 & H2).
  rewrite Ht in H1. injection H1 as <-.
  specialize (Hfair i Hi). cbn in H2. destruct t; cbn in *; [lia|lia|done].
Qed.

(** *** A source that gives the same list for [k] at every import *)

Variable k : string.
Variable l : list Sensor.
Hypothesis stable : ∀ n, importData n k = Some l.

Lemma poolInv_start n w :
  sensorCache w !! k = None → poolInv k l w (coldCalls n k, w).
Proof.
  intros H. unfold poolInv, coldCalls. cbn.
  rewrite !countb_replicate, length_replicate. cbn. split_and!.
  - apply Forall_replicate. by left.
  - by left.
  - done.
  - exists 0. rewrite H. split_and!; [lia|lia|lia|done].
Qed.

Lemma poolInv_step w0 i p : poolInv k l w0 p → poolInv k l w0 (stepPool importData i p).
Proof.
  intros (Hall & Hc & Hd & j & Hj1 & Hj2 & Hj3 & Hj4).
  destruct p as [pool w]. cbn in *. unfold stepPool. cbn.
  destruct (pool !! i) as [t|] eqn:Ei; [|by repeat split; eauto 10].
  pose proof (Forall_lookup_1 _ _ _ _ Hall Ei) as [->|[->| ->]]; cbn.
  - destruct (sensorCache w !! k) as [l'|] eqn:Ec; cbn.
    + destruct Hc as [?|Hc]; [done|]. injection Hc as ->.
      pose proof (countb_insert isAwaitImport pool i _ (Done (Fulfilled l)) Ei) as C1.
      pose proof (countb_insert isAwaitDelay pool i _ (Done (Fulfilled l)) Ei) as C2.
      cbn in C1, C2. unfold poolInv. cbn. rewrite Ec, length_insert. split_and!.
      * apply Forall_insert; [done|]. by right; right.
      * by right.
      * done.
      * exists j. split_and!; [done|lia|lia|done].
    + rewrite stable.
      pose proof (countb_insert isAwaitImport pool i _ (AwaitImport k (Some l)) Ei) as C1.
      pose proof (countb_insert isAwaitDelay pool i _ (AwaitImport k (Some l)) Ei) as C2.
      pose proof (countb_insert isDone pool i _ (AwaitImport k (Some l)) Ei) as C3.
      cbn in C1, C2, C3. unfold poolInv. cbn [fst snd sensorCache].
      rewrite Ec, length_insert. split_and!.
      * apply Forall_insert; [done|]. by right; left.
      * by left.
      * intros _. specialize (Hd eq_refl). lia.
      * exists (S j). split_and!; [|lia|lia|done].
        rewrite (importCount_snoc k k w) by reflexivity. rewrite decide_True by done. lia.
  - pose proof (countb_insert isAwaitImport pool i _ (Done (Fulfilled l)) Ei) as C1.
    pose proof (countb_insert isAwaitDelay pool i _ (Done (Fulfilled l)) Ei) as C2.
    cbn in C1, C2. unfold poolInv. cbn [fst snd sensorCache cacheSet].
    rewrite lookup_insert_eq, length_insert. split_and!.
    + apply Forall_insert; [done|]. by right; right.
    + by right.
    + done.
    + exists j. split_and!; [done|lia|lia|lia].
  - rewrite (list_insert_id _ _ _ Ei). unfold poolInv. cbn. split_and!; [done|done|done|].
    exists j. by split_and!.
Qed.

Lemma poolInv_run w0 schedule : ∀ p,
  poolInv k l w0 p → poolInv k l w0 (runPool importData schedule p).
Proof.
  induction schedule as [|i schedule IH]; intros p H; [done|].
  rewrite runPool_cons. by apply IH, poolInv_step.
Qed.

(** C6, as amended. Calls in flight together are not coalesced: each
    one that resumes from its delay while the cache has no entry issues an
    import of its own. For [n] cold calls on a source that gives the same
    list at every import, and for every schedule: once all calls are done,
    each has fulfilled with that list, the cache holds it, and the imports
    issued for the location number at least one and at most [n]; and all
    calls are done as soon as each has been resumed twice. *)
Theorem cold_calls_import_at_most_once_each
    (n : nat) (w : World) (schedule : list nat) :
  0 < n → sensorCache w !! k = None →
  let p := runPool importData schedule (coldCalls n k, w) in
  (forallb isDone p.1 = true →
     Forall (λ t, t = Done (Fulfilled l)) p.1 ∧
     length p.1 = n ∧
     sensorCache p.2 !! k = Some l ∧
     importCount k w + 1 ≤ importCount k p.2 ∧
     importCount k p.2 ≤ importCount k w + n) ∧
  ((∀ i, i < n → 2 ≤ resumptions i schedule) → forallb isDone p.1 = true).
Proof.
  intros Hn Hc. cbn zeta. split; [|apply runPool_all_done].
  intros Hdone.
  destruct (poolInv_run w schedule _ (poolInv_start n w Hc))
    as (Hall & Hcache & Hd & j & Hj1 & Hj2 & Hj3 & Hj4).
  set (p := runPool importData schedule (coldCalls n k, w)) in *.
  assert (Hlen : length p.1 = n).
  { unfold p. rewrite runPool_length. cbn. unfold coldCalls. apply length_replicate. }
  assert (Hsome : sensorCache p.2 !! k = Some l).
  { destruct Hcache as [Hnone|?]; [|done].
    specialize (Hd Hnone). rewrite (countb_all _ _ Hdone) in Hd. lia. }
  split_and!; try done.
  - apply Forall_forall. intros t Ht.
    assert (Ht' : isDone t = true).
    { apply list_elem_of_lookup in Ht as [i Hi].
      assert (Hf : Forall (λ t, isDone t = true) p.1).
      { clear -Hdone. induction p.1 as [|x r IH]; [done|]. cbn in Hdone.
        apply andb_prop in Hdone as [? ?]. constructor; auto. }
      by apply (Forall_lookup_1 _ _ _ _ Hf Hi). }
    destruct (proj1 (Forall_forall _ _) Hall t Ht) as [->|[->| ->]]; done.
  - specialize (Hj4 Hsome). lia.
  - lia.
Qed.

End PoolFacts.

Lemma cold_calls_import_at_most_once_each_witness :
  (∀ n, sourceL1L2 n "L1" = Some catalogueABC) ∧ 0 < 2 ∧
  sensorCache emptyWorld !! "L1" = None ∧
  let p := runPool sourceL1L2 [0; 0; 1] (coldCalls 2 "L1", emptyWorld) in
  forallb isDone p.1 = true ∧
  importCount "L1" emptyWorld + 1 ≤ importCount "L1" p.2 ∧
  importCount "L1" p.2 ≤ importCount "L1" emptyWorld + 2.
Proof.
  assert (H1 : ∀ n, sourceL1L2 n "L1" = Some catalogueABC) by reflexivity.
  assert (H2 : 0 < 2) by lia.
  assert (H3 : sensorCache emptyWorld !! "L1" = None) by reflexivity.
  assert (H4 : forallb isDone
            (runPool sourceL1L2 [0; 0; 1] (coldCalls 2 "L1", emptyWorld)).1 = true)
    by (vm_compute; reflexivity).
  pose proof (cold_calls_import_at_most_once_each sourceL1L2 "L1" catalogueABC H1
                2 emptyWorld [0; 0; 1] H2 H3) as H.
  cbn zeta in H. destruct H as [H _]. destruct (H H4) as (_ & _ & _ & G1 & G2).
  exact (conj H1 (conj H2 (conj H3 (conj H4 (conj G1 G2))))).
Defined.

(** C6, as stated, fails: two cold calls for L1 that both resume from
    their delay before either import completes import twice, although each
    fulfils with the catalogue; run one after the other they import once. *)
Lemma two_cold_calls_import_twice :
  let p := runPool sourceL1L2 [0; 1; 0; 1] (coldCalls 2 "L1", emptyWorld) in
  let q := runPool sourceL1L2 [0; 0; 1] (coldCalls 2 "L1", emptyWorld) in
  sensorCache emptyWorld !! "L1" = None ∧
  p.1 = [Done (Fulfilled catalogueABC); Done (Fulfilled catalogueABC)] ∧
  importLog p.2 = ["L1"; "L1"] ∧
  importCount "L1" p.2 = 2 ∧
  importCount "L1" q.2 = 1.
Proof. cbn zeta. split_and!; vm_compute; reflexivity. Qed.

(** One call run through its two suspensions is [getSensorsByLocation]. *)
Lemma getSensorsByLocation_segments importData k w :
  let '(t, w') := runPool importData [0; 0] ([AwaitDelay k], w) in
  t = [Done (getSensorsByLocation importData k w).1] ∧
  w' = (getSensorsByLocation importData k w).2.
Proof.
  unfold runPool, stepPool, getSensorsByLocation, dynamicImport. cbn.
  destruct (sensorCache w !! k) as [l|]; cbn; [done|].
  by destruct (importData (length (importLog w)) k).
Qed.


(** * Further properties *)

(** ** The data layer: listing, and both loaders in sequence *)

Section DataLayerMore.

Variable importData : nat → string → option (list Sensor).

Lemma getLocationsLoop_cons_ok f files acc w l :
  importData (length (importLog w)) f = Some l →
  getLocationsLoop importData (f :: files) acc w =
  getLocationsLoop importData files
    (acc ++ [mkLocation f (formatLocationName f) (length l)])
    (mkWorld (<[f:=l]> (sensorCache w)) (importLog w ++ [f]) (consoleErrors w)).
Proof. intros E. cbn. unfold dynamicImport. by rewrite E. Qed.

Lemma getLocationsLoop_cons_fail f files acc w :
  importData (length (importLog w)) f = None →
  getLocationsLoop importData (f :: files) acc w =
  getLocationsLoop importData files acc
    (mkWorld (sensorCache w) (importLog w ++ [f])
       (consoleErrors w ++ ["Failed to load location file: " +:+ f +:+ ".json"])).
Proof. intros E. cbn. unfold dynamicImport. by rewrite E. Qed.

Lemma getLocationsLoop_accounting files : ∀ acc w,
  ∃ new errs,
    (getLocationsLoop importData files acc w).1 = acc ++ new ∧
    importLog (getLocationsLoop importData files acc w).2 = importLog w ++ files ∧
    consoleErrors (getLocationsLoop importData files acc w).2 = consoleErrors w ++ errs ∧
    sublist (id <$> new) files ∧
    length new + length errs = length files ∧
    (∀ i f, files !! i = Some f →
       is_Some (importData (length (importLog w) + i) f) → f ∈ id <$> new) ∧
    (∀ loc, loc ∈ new →
       ∃ i l, files !! i = Some (id loc) ∧
              importData (length (importLog w) + i) (id loc) = Some l ∧
              sensorCount loc = length l ∧
              name loc = formatLocationName (id loc)).
Proof.
  induction files as [|f files IH]; intros acc w.
  - exists [], []. cbn. rewrite !app_nil_r. split_and!; try done.
    + intros loc Hin. by apply elem_of_nil in Hin.
  - destruct (importData (length (importLog w)) f) as [l|] eqn:E.
    + rewrite (getLocationsLoop_cons_ok _ _ _ _ _ E).
      destruct (IH (acc ++ [mkLocation f (formatLocationName f) (length l)])
                   (mkWorld (<[f:=l]> (sensorCache w)) (importLog w ++ [f]) (consoleErrors w)))
        as (new & errs & H1 & H2 & H3 & H4 & H5 & H6 & H7).
      cbn [importLog consoleErrors] in H2, H3, H6, H7.
      exists (mkLocation f (formatLocationName f) (length l) :: new), errs.
      rewrite H1, H2, H3, <- !app_assoc. cbn. split_and!; try done.
      * by apply sublist_skip.
      * lia.
      * intros [|i] g Hg Hs; cbn in Hg.
        -- injection Hg as <-. apply elem_of_cons. by left.
        -- apply elem_of_cons. right. apply (H6 i g Hg).
           rewrite length_app. cbn. by replace (length (importLog w) + 1 + i)
             with (length (importLog w) + S i) by lia.
      * intros loc [->|Hin]%elem_of_cons.
        -- exists 0, l. cbn. rewrite Nat.add_0_r. by split_and!.
        -- destruct (H7 loc Hin) as (i & l' & G1 & G2 & G3 & G4).
           exists (S i), l'. cbn. split_and!; try done.
           rewrite length_app in G2. cbn in G2.
           by replace (length (importLog w) + S i)
             with (length (importLog w) + 1 + i) by lia.
    + rewrite (getLocationsLoop_cons_fail _ _ _ _ E).
      destruct (IH acc
                   (mkWorld (sensorCache w) (importLog w ++ [f])
                      (consoleErrors w ++ ["Failed to load location file: " +:+ f +:+ ".json"])))
        as (new & errs & H1 & H2 & H3 & H4 & H5 & H6 & H7).
      cbn [importLog consoleErrors] in H2, H3, H6, H7.
      exists new, (("Failed to load location file: " +:+ f +:+ ".json") :: errs).
      rewrite H1, H2, H3, <- !app_assoc. cbn. split_and!; try done.
      * by apply sublist_cons.
      * lia.
      * intros [|i] g Hg Hs; cbn in Hg.
        -- injection Hg as <-. rewrite Nat.add_0_r, E in Hs. by destruct Hs.
        -- apply (H6 i g Hg).
           rewrite length_app. cbn. by replace (length (importLog w) + 1 + i)
             with (length (importLog w) + S i) by lia.
      * intros loc Hin. destruct (H7 loc Hin) as (i & l' & G1 & G2 & G3 & G4).
        exists (S i), l'. cbn. split_and!; try done.
        rewrite length_app in G2. cbn in G2.
        by replace (length (importLog w) + S i)
          with (length (importLog w) + 1 + i) by lia.
Qed.

(** X1. The listing loop imports every file once, in order, whatever the
    cache holds; a file whose import fails costs one console message and
    nothing else: the locations returned are those of the files whose import
    succeeded, in the order of the file list, each named after its id and
    counted from the list read. *)
Theorem getLocationsLoop_isolates_failures (files : list string) (w : World) :
  let locations := (getLocationsLoop importData files [] w).1 in
  let w' := (getLocationsLoop importData files [] w).2 in
  importLog w' = importLog w ++ files ∧
  sublist (id <$> locations) files ∧
  length locations + (length (consoleErrors w') - length (consoleErrors w))
    = length files ∧
  (∀ i f, files !! i = Some f →
     is_Some (importData (length (importLog w) + i) f) → f ∈ id <$> locations) ∧
  (∀ loc, loc ∈ locations →
     ∃ i l, files !! i = Some (id loc) ∧
            importData (length (importLog w) + i) (id loc) = Some l ∧
            sensorCount loc = length l ∧
            name loc = formatLocationName (id loc)).
Proof.
  cbn zeta.
  destruct (getLocationsLoop_accounting files [] w)
    as (new & errs & H1 & H2 & H3 & H4 & H5 & H6 & H7).
  rewrite H1, H2, H3. cbn. rewrite length_app. split_and!; try done. lia.
Qed.

Lemma getLocationsLoop_cache files : ∀ acc w k,
  let w' := (getLocationsLoop importData files acc w).2 in
  (k ∉ files → sensorCache w' !! k = sensorCache w !! k) ∧
  (is_Some (sensorCache w !! k) → is_Some (sensorCache w' !! k)).
Proof.
  induction files as [|f files IH]; intros acc w k; [done|]. cbn zeta.
  destruct (importData (length (importLog w)) f) as [l|] eqn:E.
  - rewrite (getLocationsLoop_cons_ok _ _ _ _ _ E).
    destruct (IH (acc ++ [mkLocation f (formatLocationName f) (length l)])
                 (mkWorld (<[f:=l]> (sensorCache w)) (importLog w ++ [f]) (consoleErrors w)) k)
      as [H1 H2]. cbn in H1, H2. split.
    + intros [Hne Hnin]%not_elem_of_cons. rewrite (H1 Hnin).
      by rewrite lookup_insert_ne.
    + intros Hs. apply H2. destruct (decide (f = k)) as [->|Hne].
      * by rewrite lookup_insert_eq.
      * by rewrite lookup_insert_ne.
  - rewrite (getLocationsLoop_cons_fail _ _ _ _ E).
    destruct (IH acc
                 (mkWorld (sensorCache w) (importLog w ++ [f])
                    (consoleErrors w ++ ["Failed to load location file: " +:+ f +:+ ".json"])) k)
      as [H1 H2]. cbn in H1, H2. split.
    + intros [Hne Hnin]%not_elem_of_cons. by rewrite (H1 Hnin).
    + done.
Qed.

Lemma getLocationsLoop_failed_entry files : ∀ acc w i f,
  NoDup files → files !! i = Some f →
  importData (length (importLog w) + i) f = None →
  sensorCache (getLocationsLoop importData files acc w).2 !! f = sensorCache w !! f.
Proof.
  induction files as [|g files IH]; intros acc w i f Hnd Hi Hf; [done|].
  apply NoDup_cons in Hnd as [Hg Hnd].
  destruct i as [|i]; cbn in Hi.
  - injection Hi as ->. rewrite Nat.add_0_r in Hf.
    rewrite (getLocationsLoop_cons_fail _ _ _ _ Hf).
    by rewrite (proj1 (getLocationsLoop_cache files _ _ f) Hg).
  - assert (Hne : g ≠ f).
    { intros ->. apply Hg. by apply list_elem_of_lookup_2 in Hi. }
    destruct (importData (length (importLog w)) g) as [l|] eqn:E.
    + rewrite (getLocationsLoop_cons_ok _ _ _ _ _ E).
      rewrite (IH _ _ i f Hnd Hi).
      * cbn. by rewrite lookup_insert_ne.
      * cbn. rewrite length_app. cbn.
        by replace (length (importLog w) + 1 + i) with (length (importLog w) + S i) by lia.
    + rewrite (getLocationsLoop_cons_fail _ _ _ _ E).
      rewrite (IH _ _ i f Hnd Hi); [done|].
      cbn. rewrite length_app. cbn.
      by replace (length (importLog w) + 1 + i) with (length (importLog w) + S i) by lia.
Qed.

(** X2. The listing loop writes the cache only under the files whose
    import succeeded: the entry of every other key is left as it was, and so
    is the entry of a listed file whose import failed. *)
Theorem getLocationsLoop_cache_frame (files : list string) (w : World) :
  NoDup files →
  let w' := (getLocationsLoop importData files [] w).2 in
  (∀ k, k ∉ files → sensorCache w' !! k = sensorCache w !! k) ∧
  (∀ i f, files !! i = Some f →
     importData (length (importLog w) + i) f = None →
     sensorCache w' !! f = sensorCache w !! f).
Proof.
  intros Hnd. cbn zeta. split.
  - intros k Hk. by apply (getLocationsLoop_cache files [] w k).
  - intros i f Hi Hf. by apply (getLocationsLoop_failed_entry files [] w i f).
Qed.

Lemma getSensorsByLocation_cache k w k' :
  let w' := (getSensorsByLocation importData k w).2 in
  (k' ≠ k → sensorCache w' !! k' = sensorCache w !! k') ∧
  (is_Some (sensorCache w !! k') → is_Some (sensorCache w' !! k')).
Proof.
  cbn zeta. unfold getSensorsByLocation, dynamicImport.
  destruct (sensorCache w !! k) as [l|] eqn:E; [done|].
  destruct (importData (length (importLog w)) k) as [l|]; cbn; [|done].
  split.
  - intros Hne. by rewrite lookup_insert_ne.
  - intros Hs. destruct (decide (k = k')) as [->|Hne].
    + by rewrite lookup_insert_eq.
    + by rewrite lookup_insert_ne.
Qed.

Lemma runOp_keeps op w k :
  is_Some (sensorCache w !! k) → is_Some (sensorCache (runOp importData op w) !! k).
Proof.
  destruct op as [|k0]; cbn.
  - unfold getLocations.
    pose proof (getLocationsLoop_cache LOCATION_FILES [] w k) as [_ H].
    by destruct (getLocationsLoop importData LOCATION_FILES [] w).
  - apply getSensorsByLocation_cache.
Qed.

(** X3. Nothing is ever evicted: an entry present in the cache is still
    present after any sequence of calls of the two loaders. *)
Theorem runOps_never_evicts (ops : list Op) (w : World) (k : string) :
  is_Some (sensorCache w !! k) →
  is_Some (sensorCache (runOps importData ops w) !! k).
Proof.
  unfold runOps. revert w. induction ops as [|op ops IH]; intros w H; [done|].
  cbn [foldl]. by apply IH, runOp_keeps.
Qed.

Lemma cacheFromSource_snoc w c e k :
  cacheFromSource importData w →
  (∀ k' l, c !! k' = Some l →
     sensorCache w !! k' = Some l ∨ (k' = k ∧ importData (length (importLog w)) k = Some l)) →
  cacheFromSource importData (mkWorld c (importLog w ++ [k]) e).
Proof.
  intros Hw Hc k' l Hl. cbn in *.
  destruct (Hc k' l Hl) as [Hold|[-> Hnew]].
  - destruct (Hw k' l Hold) as (n & Hn & Hd). exists n. split; [|done].
    by apply lookup_app_l_Some.
  - exists (length (importLog w)). split; [|done].
    rewrite lookup_app_r by lia. by rewrite Nat.sub_diag.
Qed.

Lemma cacheFromSource_errors w e :
  cacheFromSource importData w →
  cacheFromSource importData (mkWorld (sensorCache w) (importLog w) e).
Proof. intros Hw k l Hl. exact (Hw k l Hl). Qed.

Lemma getSensorsByLocation_cacheFromSource k w :
  cacheFromSource importData w →
  cacheFromSource importData (getSensorsByLocation importData k w).2.
Proof.
  intros Hw. unfold getSensorsByLocation, dynamicImport.
  destruct (sensorCache w !! k) as [l|] eqn:E; [done|].
  destruct (importData (length (importLog w)) k) as [l|] eqn:Ei; cbn.
  - apply cacheFromSource_snoc; [done|]. intros k' l' Hl.
    destruct (decide (k = k')) as [->|Hne].
    + rewrite lookup_insert_eq in Hl. injection Hl as ->. by right.
    + rewrite lookup_insert_ne in Hl by done. by left.
  - unfold consoleError. cbn.
    apply (cacheFromSource_errors
             (mkWorld (sensorCache w) (importLog w ++ [k]) (consoleErrors w))).
    apply cacheFromSource_snoc; [done|]. intros k' l' Hl. by left.
Qed.

Lemma getLocationsLoop_cacheFromSource files : ∀ acc w,
  cacheFromSource importData w →
  cacheFromSource importData (getLocationsLoop importData files acc w).2.
Proof.
  induction files as [|f files IH]; intros acc w Hw; [done|].
  destruct (importData (length (importLog w)) f) as [l|] eqn:E.
  - rewrite (getLocationsLoop_cons_ok _ _ _ _ _ E). apply IH.
    apply cacheFromSource_snoc; [done|]. intros k' l' Hl.
    destruct (decide (f = k')) as [->|Hne].
    + rewrite lookup_insert_eq in Hl. injection Hl as ->. by right.
    + rewrite lookup_insert_ne in Hl by done. by left.
  - rewrite (getLocationsLoop_cons_fail _ _ _ _ E). apply IH.
    apply (cacheFromSource_errors
             (mkWorld (sensorCache w) (importLog w ++ [f]) (consoleErrors w))).
    apply cacheFromSource_snoc; [done|]. intros k' l' Hl. by left.
Qed.

Lemma runOp_cacheFromSource op w :
  cacheFromSource importData w → cacheFromSource importData (runOp importData op w).
Proof.
  intros Hw. destruct op as [|k]; cbn.
  - unfold getLocations.
    pose proof (getLocationsLoop_cacheFromSource LOCATION_FILES [] w Hw) as H.
    by destruct (getLocationsLoop importData LOCATION_FILES [] w).
  - by apply getSensorsByLocation_cacheFromSource.
Qed.

(** X4. Starting with an empty cache, after any sequence of calls of the
    two loaders every list in the cache is one the source gave for its key
    at an import recorded in the log: a failed import leaves no entry. *)
Theorem cache_holds_only_imported_lists (ops : list Op) :
  cacheFromSource importData (runOps importData ops emptyWorld).
Proof.
  assert (H0 : cacheFromSource importData emptyWorld) by (intros k l Hl; done).
  revert H0. generalize emptyWorld. unfold runOps.
  induction ops as [|op ops IH]; intros w Hw; [done|].
  cbn [foldl]. by apply IH, runOp_cacheFromSource.
Qed.

(** X5. Every call of [getSensorsByLocation] fulfils with a list; either
    the cache then holds that list under the key and nothing was reported,
    or the list is empty, the key has no entry and one message was reported.
    The call issues at most one import and touches no other key. *)
Theorem getSensorsByLocation_outcome (k : string) (w : World) :
  let w' := (getSensorsByLocation importData k w).2 in
  ∃ l, (getSensorsByLocation importData k w).1 = Fulfilled l ∧
    ((sensorCache w' !! k = Some l ∧ consoleErrors w' = consoleErrors w) ∨
     (l = [] ∧ sensorCache w' !! k = None ∧
      consoleErrors w' = consoleErrors w ++ ["Failed to load sensors for location: " +:+ k])) ∧
    (importLog w' = importLog w ∨ importLog w' = importLog w ++ [k]) ∧
    (∀ k', k' ≠ k → sensorCache w' !! k' = sensorCache w !! k').
Proof.
  cbn zeta. unfold getSensorsByLocation, dynamicImport.
  destruct (sensorCache w !! k) as [l|] eqn:E.
  - exists l. cbn. split_and!; auto.
  - destruct (importData (length (importLog w)) k) as [l|]; cbn.
    + exists l. rewrite lookup_insert_eq. split_and!; auto.
      intros k' Hne. by rewrite lookup_insert_ne.
    + exists []. split_and!; auto.
Qed.

Lemma getSensorsByLocation_other k k' w :
  k' ≠ k →
  importCount k (getSensorsByLocation importData k' w).2 = importCount k w.
Proof.
  intros Hne. unfold getSensorsByLocation, dynamicImport.
  destruct (sensorCache w !! k'); [done|].
  destruct (importData (length (importLog w)) k');
    (rewrite (importCount_snoc k k' w) by reflexivity);
    by rewrite decide_False, Nat.add_0_r.
Qed.

Lemma getSensorsCalls_at_most_once k ks : ∀ w,
  (∀ n, is_Some (importData n k)) →
  importCount k (getSensorsCalls importData ks w)
    ≤ importCount k w + (match sensorCache w !! k with Some _ => 0 | None => 1 end) ∧
  (k ∈ ks ∨ is_Some (sensorCache w !! k) →
   is_Some (sensorCache (getSensorsCalls importData ks w) !! k)).
Proof.
  intros w Hsrc. revert w. unfold getSensorsCalls.
  induction ks as [|k' ks IH]; intros w.
  - cbn. split; [lia|]. intros [Hin|Hs]; [by apply elem_of_nil in Hin|done].
  - cbn [foldl]. destruct (IH (getSensorsByLocation importData k' w).2) as [IH1 IH2].
    destruct (sensorCache w !! k) as [l|] eqn:E.
    + destruct (getSensorsByLocation_keeps_warm importData k l k' w E) as [W1 W2].
      rewrite W1 in IH1. split; [lia|]. intros _. apply IH2. right. by rewrite W1.
    + destruct (decide (k' = k)) as [->|Hne].
      * destruct (Hsrc (length (importLog w))) as [l Hl].
        destruct (cold_load_warms_cache importData k l w E Hl) as (_ & C1 & C2).
        rewrite C1 in IH1. split; [lia|]. intros _. apply IH2. right. by rewrite C1.
      * rewrite (getSensorsByLocation_other k k' w Hne) in IH1.
        assert (Hc : sensorCache (getSensorsByLocation importData k' w).2 !! k = None).
        { rewrite (proj1 (getSensorsByLocation_cache k' w k)) by done. exact E. }
        rewrite Hc in IH1. split; [lia|].
        intros [Hin|Hs]; [|by destruct Hs].
        apply IH2. left. apply elem_of_cons in Hin as [->|Hin]; [done|exact Hin].
Qed.

(** X6. Calls made one after the other are served by one import: when the
    source can always give the list of a location, any sequence of calls
    issues at most one import for it, none if its entry was there before,
    and the entry is there afterwards if the location was asked for. *)
Theorem sequential_calls_import_once (k : string) (ks : list string) (w : World) :
  (∀ n, is_Some (importData n k)) →
  let w' := getSensorsCalls importData ks w in
  importCount k w' ≤ importCount k w + 1 ∧
  (is_Some (sensorCache w !! k) → importCount k w' = importCount k w) ∧
  (k ∈ ks → is_Some (sensorCache w' !! k)).
Proof.
  intros Hsrc. cbn zeta.
  destruct (getSensorsCalls_at_most_once k ks w Hsrc) as [H1 H2].
  split_and!.
  - destruct (sensorCache w !! k); lia.
  - intros [l Hl].
    by destruct (getSensorsCalls_keeps_warm importData k l ks w Hl) as [_ ?].
  - intros Hin. apply H2. by left.
Qed.

Lemma getSensorsCalls_warm ks : ∀ w,
  (∀ k, k ∈ ks → is_Some (sensorCache w !! k)) →
  getSensorsCalls importData ks w = w.
Proof.
  unfold getSensorsCalls. induction ks as [|k ks IH]; intros w H; [done|].
  cbn [foldl]. destruct (H k) as [l Hl]; [by left|].
  rewrite (getSensorsByLocation_hit importData k l w Hl). cbn.
  apply IH. intros k' Hk'. apply H. by right.
Qed.

(** X7. After [getLocations], calls of [getSensorsByLocation] for locations
    it returned, in any number and order, change nothing: no import is
    issued, nothing is reported, the cache stays as it is. *)
Theorem listed_locations_need_no_import (w : World) (ks : list string) :
  let w' := (getLocations importData w).2 in
  (∀ k, k ∈ ks →
     ∃ locations, (getLocations importData w).1 = Fulfilled locations ∧
                  k ∈ id <$> locations) →
  getSensorsCalls importData ks w' = w'.
Proof.
  cbn zeta. intros H. apply getSensorsCalls_warm. intros k Hk.
  destruct (H k Hk) as (locations & E & Hin).
  unfold getLocations in *.
  pose proof (getLocationsLoop_listed importData LOCATION_FILES [] w
                NoDup_LOCATION_FILES) as HL.
  destruct (getLocationsLoop importData LOCATION_FILES [] w) as [locs w1].
  cbn in *. injection E as <-.
  apply list_elem_of_fmap in Hin as (loc & -> & Hloc).
  destruct (HL (λ loc' Hin', False_ind _ (not_elem_of_nil _ Hin')) loc Hloc)
    as (l & n & G1 & _). by exists l.
Qed.

End DataLayerMore.

Lemma getLocationsLoop_cache_frame_witness :
  NoDup ["L1"; "L3"] ∧
  sensorCache (getLocationsLoop sourceL1L2 ["L1"; "L3"] []
                 (getSensorsByLocation sourceL1L2 "L2" emptyWorld).2).2 !! "L2"
  = Some catalogueXY.
Proof.
  assert (H : NoDup ["L1"; "L3"]) by (apply (bool_decide_unpack _); vm_compute; exact I).
  pose proof (getLocationsLoop_cache_frame sourceL1L2 ["L1"; "L3"]
                (getSensorsByLocation sourceL1L2 "L2" emptyWorld).2 H) as [F _].
  assert (Hk : "L2" ∉ ["L1"; "L3"]).
  { rewrite !not_elem_of_cons. split_and!; try discriminate. apply not_elem_of_nil. }
  split; [exact H|]. rewrite (F "L2" Hk). reflexivity.
Defined.

Lemma runOps_never_evicts_witness :
  is_Some (sensorCache (getSensorsByLocation sourceL1L2 "L2" emptyWorld).2 !! "L2") ∧
  is_Some (sensorCache
             (runOps sourceL1L2 [OpGetLocations; OpGetSensors "L1"; OpGetSensors "L3"]
                (getSensorsByLocation sourceL1L2 "L2" emptyWorld).2) !! "L2").
Proof.
  assert (H : is_Some (sensorCache (getSensorsByLocation sourceL1L2 "L2" emptyWorld).2 !! "L2"))
    by (exists catalogueXY; reflexivity).
  exact (conj H (runOps_never_evicts sourceL1L2 _ _ "L2" H)).
Defined.

Lemma sequential_calls_import_once_witness :
  (∀ n, is_Some (sourceL1L2 n "L1")) ∧
  importCount "L1" (getSensorsCalls sourceL1L2 ["L1"; "L2"; "L1"; "L1"] emptyWorld)
    ≤ importCount "L1" emptyWorld + 1.
Proof.
  assert (H : ∀ n, is_Some (sourceL1L2 n "L1")) by (intros n; by exists catalogueABC).
  exact (conj H (proj1 (sequential_calls_import_once sourceL1L2 "L1"
                          ["L1"; "L2"; "L1"; "L1"] emptyWorld H))).
Defined.

(** A source for the file the listing knows. *)
Lemma listed_locations_need_no_import_witness :
  let src := λ (_ : nat) (_ : string), Some catalogueABC in
  let w' := (getLocations src emptyWorld).2 in
  (∀ k, k ∈ ["SanDiego"; "SanDiego"] →
     ∃ locations, (getLocations src emptyWorld).1 = Fulfilled locations ∧
                  k ∈ id <$> locations) ∧
  getSensorsCalls src ["SanDiego"; "SanDiego"] w' = w'.
Proof.
  cbn zeta.
  assert (H : ∀ k, k ∈ ["SanDiego"; "SanDiego"] →
     ∃ locations,
       (getLocations (λ _ _, Some catalogueABC) emptyWorld).1 = Fulfilled locations ∧
       k ∈ id <$> locations).
  { intros k Hk. eexists. split; [reflexivity|].
    apply elem_of_cons in Hk as [->|Hk]; [cbn; apply elem_of_cons; by left|].
    apply elem_of_cons in Hk as [->|Hk]; [cbn; apply elem_of_cons; by left|].
    by apply elem_of_nil in Hk. }
  exact (conj H (listed_locations_need_no_import (λ _ _, Some catalogueABC) emptyWorld
                   ["SanDiego"; "SanDiego"] H)).
Defined.

(** ** Names and labels *)

Lemma toUpperCase_space c :
  bool_decide (Char.toUpperCase c = Char.space) = bool_decide (c = Char.space).
Proof. destruct c as [[] [] [] [] [] [] [] []]; vm_compute; reflexivity. Qed.

Lemma toUpperCase_idempotent c :
  Char.toUpperCase (Char.toUpperCase c) = Char.toUpperCase c.
Proof. destruct c as [[] [] [] [] [] [] [] []]; vm_compute; reflexivity. Qed.

Lemma skeleton_insertSpaceFrom s : ∀ pl, skeleton (insertSpaceFrom pl s) = skeleton s.
Proof.
  induction s as [|c r IH]; intros pl; [done|]. cbn [insertSpaceFrom].
  destruct (pl && Char.is_upper c).
  - change (skeleton (String Char.space (String c (insertSpaceFrom false r))))
      with (skeleton (String c (insertSpaceFrom false r))).
    cbn [skeleton]. by rewrite IH.
  - cbn [skeleton]. by rewrite IH.
Qed.

Lemma skeleton_replaceUnderscores s : skeleton (replaceUnderscores s) = skeleton s.
Proof.
  induction s as [|c r IH]; [done|]. cbn [replaceUnderscores].
  destruct (Char.is_underscore c) eqn:E.
  - change (skeleton (String Char.space (replaceUnderscores r)))
      with (skeleton (replaceUnderscores r)).
    cbn [skeleton]. by rewrite E, IH.
  - cbn [skeleton]. by rewrite E, IH.
Qed.

Lemma skeleton_capitalizeWordsFrom s : ∀ pw,
  skeleton (capitalizeWordsFrom pw s) = skeleton s.
Proof.
  induction s as [|c r IH]; intros pw; [done|]. cbn [capitalizeWordsFrom skeleton].
  destruct (Char.is_word c && negb pw).
  - by rewrite toUpperCase_underscore, toUpperCase_space, toUpperCase_idempotent, IH.
  - by rewrite IH.
Qed.

(** X8. The name derivation neither drops nor adds nor reorders a letter
    or a digit: leaving spaces and underscores out and case aside, the name
    reads as the id does. *)
Theorem formatLocationName_keeps_letters (s : string) :
  skeleton (formatLocationName s) = skeleton s.
Proof.
  unfold formatLocationName, capitalizeWords.
  rewrite skeleton_capitalizeWordsFrom, skeleton_replaceUnderscores.
  by rewrite insertSpaceBeforeCapitals_from, skeleton_insertSpaceFrom.
Qed.

Lemma replaceUnderscores_app s t :
  replaceUnderscores (s +:+ t) = replaceUnderscores s +:+ replaceUnderscores t.
Proof.
  induction s as [|c r IH]; [done|].
  change (String c r +:+ t) with (String c (r +:+ t)).
  cbn [replaceUnderscores]. rewrite IH. reflexivity.
Qed.

(** X9. The sensor type shown in a row has the length of the sensor type,
    holds no underscore, is the sensor type itself when that has none, and is
    made piece by piece: the label of two strings put together is their
    labels put together. *)
Theorem sensorTypeLabel_properties (s t : string) :
  String.length (SensorItem.sensorTypeLabel s) = String.length s ∧
  noUnderscore (SensorItem.sensorTypeLabel s) = true ∧
  (noUnderscore s = true → SensorItem.sensorTypeLabel s = s) ∧
  SensorItem.sensorTypeLabel (SensorItem.sensorTypeLabel s) = SensorItem.sensorTypeLabel s ∧
  SensorItem.sensorTypeLabel (s +:+ t)
    = SensorItem.sensorTypeLabel s +:+ SensorItem.sensorTypeLabel t.
Proof.
  unfold SensorItem.sensorTypeLabel. split_and!.
  - apply replaceUnderscores_length.
  - apply replaceUnderscores_noUnderscore.
  - apply replaceUnderscores_fixed.
  - apply replaceUnderscores_fixed, replaceUnderscores_noUnderscore.
  - apply replaceUnderscores_app.
Qed.

Lemma ownProperty_Some key props v :
  SensorItem.ownProperty key props = Some v → (key, v) ∈ props.
Proof.
  induction props as [|[k v'] rest IH]; [done|]. cbn.
  case_bool_decide as E.
  - intros [= ->]. subst. apply elem_of_cons. by left.
  - intros H. apply elem_of_cons. right. by apply IH.
Qed.

Lemma ownProperty_None key props v :
  SensorItem.ownProperty key props = None → (key, v) ∉ props.
Proof.
  induction props as [|[k v'] rest IH]; [intros _; apply not_elem_of_nil|]. cbn.
  case_bool_decide as E; [done|].
  intros H. apply not_elem_of_cons. split; [congruence|by apply IH].
Qed.

Lemma ownProperty_NoDup key props v :
  NoDup props.*1 → (key, v) ∈ props → SensorItem.ownProperty key props = Some v.
Proof.
  induction props as [|[k v'] rest IH]; [by intros _ ?%elem_of_nil|].
  cbn. intros [Hk Hnd]%NoDup_cons [[= -> ->]|Hin]%elem_of_cons.
  - by rewrite bool_decide_eq_true_2.
  - rewrite bool_decide_eq_false_2; [by apply IH|].
    intros ->. apply Hk. apply list_elem_of_fmap. by exists (key, v).
Qed.

Lemma DEVICE_TYPE_ICONS_keys : NoDup SensorItem.DEVICE_TYPE_ICONS.*1.
Proof. apply (bool_decide_unpack _). vm_compute. exact I. Qed.

Lemma DEVICE_TYPE_ICONS_nonempty :
  Forall (λ p, p.2 ≠ "") SensorItem.DEVICE_TYPE_ICONS.
Proof. unfold SensorItem.DEVICE_TYPE_ICONS. repeat constructor; discriminate. Qed.

(** X10. For a device type that is not the name of a built-in property of
    objects, the icon is a non-empty string: the one the table gives for the
    type, and the default icon when the table has none. For the name of a
    built-in property the lookup finds the built-in, and no icon comes back. *)
Theorem getDeviceIcon_total (deviceType : string) :
  (deviceType ∉ SensorItem.objectPrototype →
   ∃ s, SensorItem.getDeviceIcon deviceType = SensorItem.Str s ∧ s ≠ "" ∧
        (∀ icon, (deviceType, icon) ∈ SensorItem.DEVICE_TYPE_ICONS → s = icon) ∧
        ((∀ icon, (deviceType, icon) ∉ SensorItem.DEVICE_TYPE_ICONS) → s = "📡")) ∧
  (deviceType ∈ SensorItem.objectPrototype →
   SensorItem.getDeviceIcon deviceType = SensorItem.Inherited deviceType).
Proof.
  split.
  - intros Hp. unfold SensorItem.getDeviceIcon, SensorItem.get.
    destruct (SensorItem.ownProperty deviceType SensorItem.DEVICE_TYPE_ICONS) as [s|] eqn:E.
    + pose proof (ownProperty_Some _ _ _ E) as Hin.
      pose proof (proj1 (Forall_forall _ _) DEVICE_TYPE_ICONS_nonempty _ Hin) as Hne.
      cbn in Hne. cbn [SensorItem.truthy]. rewrite bool_decide_eq_false_2 by done. cbn.
      exists s. split_and!; try done.
      * intros icon Hicon.
        pose proof (ownProperty_NoDup _ _ _ DEVICE_TYPE_ICONS_keys Hicon). congruence.
      * intros Hno. by destruct (Hno s).
    + rewrite bool_decide_eq_false_2 by done. cbn [SensorItem.truthy].
      exists "📡". split_and!; try done.
      intros icon Hicon. by destruct (ownProperty_None _ _ icon E).
  - intros Hp. unfold SensorItem.objectPrototype in Hp.
    repeat (apply elem_of_cons in Hp as [->|Hp]; [reflexivity|]).
    by apply elem_of_nil in Hp.
Qed.

Lemma getDeviceIcon_total_witness :
  ("UPS" ∉ SensorItem.objectPrototype) ∧
  ("constructor" ∈ SensorItem.objectPrototype) ∧
  (∃ s, SensorItem.getDeviceIcon "UPS" = SensorItem.Str s ∧ s ≠ "") ∧
  SensorItem.getDeviceIcon "constructor" = SensorItem.Inherited "constructor".
Proof.
  assert (H1 : "UPS" ∉ SensorItem.objectPrototype)
    by (apply (bool_decide_unpack _); vm_compute; exact I).
  assert (H2 : "constructor" ∈ SensorItem.objectPrototype)
    by (apply (bool_decide_unpack _); vm_compute; exact I).
  destruct (proj1 (getDeviceIcon_total "UPS") H1) as (s & G1 & G2 & _).
  exact (conj H1 (conj H2 (conj (ex_intro _ s (conj G1 G2))
                             (proj2 (getDeviceIcon_total "constructor") H2)))).
Defined.

(** ** The page: toggles *)

Lemma steps_cons e es st : steps (e :: es) st = steps es (step e st).1.
Proof. reflexivity. Qed.

Lemma steps_toggles xs : ∀ st,
  selectedSensorIds (steps (ToggleSensor <$> xs) st) = toggleAll xs (selectedSensorIds st).
Proof.
  induction xs as [|x xs IH]; intros st; [done|].
  rewrite fmap_cons, steps_cons, IH. reflexivity.
Qed.

Lemma has_toggleAll xs : ∀ s y,
  JSSet.has y (toggleAll xs s)
  = xorb (JSSet.has y s) (Nat.odd (countb (λ x, bool_decide (x = y)) xs)).
Proof.
  induction xs as [|x xs IH]; intros s y.
  - cbn. by rewrite xorb_false_r.
  - change (toggleAll (x :: xs) s) with (toggleAll xs (toggle x s)).
    rewrite IH. cbn [countb]. case_bool_decide as E.
    + subst x. rewrite has_toggle_same.
      change (1 + ?n) with (S n). rewrite Nat.odd_succ, <- Nat.negb_odd.
      by destruct (JSSet.has y s), (Nat.odd _).
    + by rewrite has_toggle_other.
Qed.

Lemma NoDup_toggleAll xs : ∀ s, NoDup s → NoDup (toggleAll xs s).
Proof.
  induction xs as [|x xs IH]; intros s H; [done|].
  change (toggleAll (x :: xs) s) with (toggleAll xs (toggle x s)).
  by apply IH, NoDup_toggle.
Qed.

Lemma countb_absent (y : string) xs :
  y ∉ xs → countb (λ x, bool_decide (x = y)) xs = 0.
Proof.
  induction xs as [|x xs IH]; [done|].
  intros [Hne Hnin]%not_elem_of_cons. cbn.
  rewrite bool_decide_eq_false_2 by congruence. by rewrite IH.
Qed.

(** X11. After any sequence of toggles an id is selected exactly when it
    was selected before and toggled an even number of times, or was not and
    toggled an odd number of times; starting from nothing selected, the
    count is the number of distinct ids toggled an odd number of times. *)
Theorem toggles_parity (st : State) (xs : list string) :
  let st' := steps (ToggleSensor <$> xs) st in
  (∀ y, JSSet.has y (selectedSensorIds st')
        = xorb (JSSet.has y (selectedSensorIds st))
               (Nat.odd (countb (λ x, bool_decide (x = y)) xs))) ∧
  (selectedSensorIds st = JSSet.empty →
   selectedCount st'
   = length (filter (λ y, Nat.odd (countb (λ x, bool_decide (x = y)) xs) = true)
               (remove_dups xs))).
Proof.
  cbn zeta. split.
  - intros y. rewrite steps_toggles. apply has_toggleAll.
  - intros E. unfold selectedCount, JSSet.size. rewrite steps_toggles, E.
    apply Permutation_length, NoDup_Permutation.
    + apply NoDup_toggleAll, NoDup_nil_2.
    + apply NoDup_filter, NoDup_remove_dups.
    + intros y. rewrite <- has_true, has_toggleAll.
      rewrite list_elem_of_filter, elem_of_remove_dups.
      change (JSSet.has y JSSet.empty) with false. rewrite xorb_false_l.
      split; [|tauto]. intros H. split; [done|].
      destruct (decide (y ∈ xs)) as [?|Hn]; [done|].
      rewrite (countb_absent y xs Hn) in H. discriminate.
Qed.

Lemma delete_absent y (s : list string) : y ∉ s → JSSet.delete y s = s.
Proof.
  unfold JSSet.delete. induction s as [|x s IH]; [done|].
  intros [H1 H2]%not_elem_of_cons.
  rewrite filter_cons_True by congruence. by rewrite IH.
Qed.

Lemma length_delete x (s : list string) :
  NoDup s → x ∈ s → S (length (JSSet.delete x s)) = length s.
Proof.
  induction s as [|x0 s IH]; [by intros _ ?%elem_of_nil|].
  intros [Hx0 Hnd]%NoDup_cons Hin. unfold JSSet.delete in *.
  destruct (decide (x0 = x)) as [->|Hne].
  - rewrite filter_cons_False by (intros ?; done).
    pose proof (delete_absent x s Hx0) as D. unfold JSSet.delete in D.
    rewrite D. reflexivity.
  - rewrite filter_cons_True by done. cbn. f_equal. apply IH; [done|].
    apply elem_of_cons in Hin as [->|Hin]; [done|exact Hin].
Qed.

Lemma size_toggle x (s : list string) :
  NoDup s →
  JSSet.size (toggle x s)
  = if JSSet.has x s then JSSet.size s - 1 else JSSet.size s + 1.
Proof.
  intros Hnd. unfold toggle, JSSet.size. destruct (JSSet.has x s) eqn:E.
  - apply has_true in E. pose proof (length_delete x s Hnd E). lia.
  - apply has_false in E. rewrite (add_fresh x s E), length_app. reflexivity.
Qed.

(** X12. A toggle changes the count by exactly one, down when the id was
    selected and up when it was not; toggling the same id twice leaves every
    membership and the count as they were. *)
Theorem toggle_count (st : State) (x : string) :
  NoDup (selectedSensorIds st) →
  let st1 := (handleToggleSensor x st).1 in
  let st2 := (handleToggleSensor x st1).1 in
  selectedCount st1
    = (if JSSet.has x (selectedSensorIds st) then selectedCount st - 1
       else selectedCount st + 1) ∧
  (∀ y, JSSet.has y (selectedSensorIds st2) = JSSet.has y (selectedSensorIds st)) ∧
  selectedCount st2 = selectedCount st.
Proof.
  intros Hnd. cbn zeta. unfold selectedCount.
  rewrite !handleToggleSensor_selection.
  pose proof (NoDup_toggle x _ Hnd) as Hnd1.
  rewrite (size_toggle x (toggle x (selectedSensorIds st)) Hnd1).
  rewrite has_toggle_same, (size_toggle x _ Hnd).
  split_and!.
  - done.
  - intros y. destruct (decide (y = x)) as [->|Hne].
    + rewrite !has_toggle_same. apply negb_involutive.
    + by rewrite !has_toggle_other.
  - destruct (JSSet.has x (selectedSensorIds st)) eqn:E; cbn; [|lia].
    apply has_true in E. unfold JSSet.size.
    destruct (selectedSensorIds st); [by apply elem_of_nil in E|cbn; lia].
Qed.

Lemma toggle_count_witness :
  let st := (handleToggleSensor "B" readyL1.2).1 in
  NoDup (selectedSensorIds st) ∧
  selectedCount (handleToggleSensor "B" st).1
    = (if JSSet.has "B" (selectedSensorIds st) then selectedCount st - 1
       else selectedCount st + 1).
Proof.
  assert (H : NoDup (selectedSensorIds (handleToggleSensor "B" readyL1.2).1))
    by (apply (bool_decide_unpack _); vm_compute; exact I).
  exact (conj H (proj1 (toggle_count (handleToggleSensor "B" readyL1.2).1 "B" H))).
Defined.

(** ** The page: what every reachable state keeps *)

Lemma runCleanup_sensors st : sensors (runCleanup st) = sensors st.
Proof. unfold runCleanup. by destruct (cleanup st). Qed.

Lemma runCleanup_no_live st :
  (∀ i, isMounted st !! i = Some true → cleanup st = Some i) →
  ∀ i, isMounted (runCleanup st) !! i ≠ Some true.
Proof.
  intros H i. unfold runCleanup. destruct (cleanup st) as [c|] eqn:E; cbn.
  - rewrite list_lookup_insert. case_decide as D.
    + discriminate.
    + intros Hi. specialize (H i Hi). injection H as ->.
      apply lookup_lt_Some in Hi. apply D. by split.
  - intros Hi. specialize (H i Hi). discriminate.
Qed.

Lemma runCleanup_cleanup st : cleanup (runCleanup st) = None.
Proof. unfold runCleanup. by destruct (cleanup st) eqn:E. Qed.

Lemma handleLocationChange_within k st :
  (∀ x, x ∈ selectedSensorIds st → x ∈ sensorId <$> sensors st) →
  ∀ x, x ∈ selectedSensorIds (handleLocationChange k st).1 →
       x ∈ sensorId <$> sensors (handleLocationChange k st).1.
Proof.
  intros H. unfold handleLocationChange. case_bool_decide; [done|].
  unfold sensorsEffect.
  assert (Hl : selectedLocationId (runCleanup (setSelectedLocationId (Some k) st)) = Some k)
    by (unfold runCleanup; cbn; by destruct (cleanup st)).
  rewrite Hl. destruct (falsy (Some k)); cbn.
  - intros x Hx. by apply elem_of_nil in Hx.
  - rewrite (runCleanup_selection (setSelectedLocationId (Some k) st)).
    rewrite (runCleanup_sensors (setSelectedLocationId (Some k) st)). exact H.
Qed.

Lemma handleLocationChange_flags k st :
  (∀ i, isMounted st !! i = Some true → cleanup st = Some i) →
  ∀ i, isMounted (handleLocationChange k st).1 !! i = Some true →
       cleanup (handleLocationChange k st).1 = Some i.
Proof.
  intros H. unfold handleLocationChange. case_bool_decide; [done|].
  unfold sensorsEffect.
  assert (Hl : selectedLocationId (runCleanup (setSelectedLocationId (Some k) st)) = Some k)
    by (unfold runCleanup; cbn; by destruct (cleanup st)).
  pose proof (runCleanup_no_live (setSelectedLocationId (Some k) st) H) as Hno.
  rewrite Hl. destruct (falsy (Some k)); cbn.
  - intros i Hi. by destruct (Hno i).
  - intros i Hi. apply lookup_app_Some in Hi as [Hi|[Hlen Hi]].
    + by destruct (Hno i).
    + f_equal. apply list_lookup_singleton_Some in Hi as [Hi _]. lia.
Qed.

Lemma handleSelectAll_selection st :
  selectedSensorIds (handleSelectAll st).1 = JSSet.of_list (sensorId <$> sensorsRef st).
Proof. reflexivity. Qed.

Lemma step_invariant e st :
  PageView.invariant st → PageView.enabled st e → PageView.invariant (step e st).1.
Proof.
  intros (Hs & Hnd & Hin & Hfl) He.
  split; [by apply step_synced|]. split; [by apply step_NoDup|].
  destruct e as [k|x| | | |r|run r]; cbn [step].
  - split; [by apply handleLocationChange_within|by apply handleLocationChange_flags].
  - split; [|done]. rewrite handleToggleSensor_selection.
    change (sensors (handleToggleSensor x st).1) with (sensors st).
    intros y [[-> _]|[_ Hy]]%elem_of_toggle; [exact He|by apply Hin].
  - split; [|done]. rewrite handleSelectAll_selection.
    change (sensors (handleSelectAll st).1) with (sensors st).
    intros y Hy. rewrite elem_of_of_list in Hy.
    destruct Hs as (_ & _ & Hr). by rewrite <- Hr.
  - split; [|done]. cbn. intros y Hy. by apply elem_of_nil in Hy.
  - done.
  - unfold fetchLocationsSettled. destruct r; by destruct (locationsIsMounted st).
  - unfold fetchSensorsSettled.
    destruct r; destruct (default false (isMounted st !! run)); cbn; try done.
    split; [|done]. intros y Hy. by apply elem_of_nil in Hy.
Qed.

Lemma initialState_full_invariant : PageView.invariant initialState.1.
Proof.
  split; [by repeat split|]. split; [apply NoDup_nil_2|].
  split; [intros x Hx; by apply elem_of_nil in Hx|].
  intros i Hi. discriminate Hi.
Qed.

(** Every reachable state keeps the invariant. *)
Lemma reachable_inv (st : State) : PageView.reachable st → PageView.invariant st.
Proof.
  induction 1 as [|e st Hr IH He]; [apply initialState_full_invariant|].
  by apply step_invariant.
Qed.





Lemma selectedA_reachable : PageView.reachable selectedA.
Proof.
  unfold selectedA. apply PageView.reachable_step;
    [apply PageView.reachable_step;
       [apply PageView.reachable_step; [apply PageView.reachable_initial|exact I]
       |exact I]|].
  unfold PageView.enabled. apply (bool_decide_unpack _). vm_compute. exact I.
Qed.



(** ** The page: the header checkbox *)

Lemma clickHeader_hidden st :
  isLoadingSensors st = true ∨ sensors st = [] → PageView.clickHeader st = (st, []).
Proof.
  unfold PageView.clickHeader, PageView.sensorList, SensorListView.SensorListComponent.
  intros [->| ->]; [done|]. by destruct (isLoadingSensors st).
Qed.



(** ** The page: responses that arrive late *)

(** X16. In every reachable state only the response to the latest request
    for sensors can change anything: a response for any other run of the
    effect, fulfilled or rejected, leaves the state exactly as it is. *)
Theorem only_latest_response_applies (st : State) (run : nat) (r : Settled (list Sensor)) :
  PageView.reachable st → cleanup st ≠ Some run →
  (fetchSensorsSettled run r st).1 = st.
Proof.
  intros Hr Hrun. destruct (reachable_inv st Hr) as (_ & _ & _ & Hfl).
  unfold fetchSensorsSettled.
  destruct (isMounted st !! run) as [[|]|] eqn:E; cbn.
  - by destruct (Hrun (Hfl run E)).
  - by destruct r.
  - by destruct r.
Qed.

Lemma only_latest_response_applies_witness :
  let st := (handleLocationChange "L2" selectedA).1 in
  PageView.reachable st ∧ cleanup st ≠ Some 0 ∧
  (fetchSensorsSettled 0 (Fulfilled catalogueXY) st).1 = st.
Proof.
  assert (H1 : PageView.reachable (handleLocationChange "L2" selectedA).1)
    by exact (PageView.reachable_step (LocationChange "L2") selectedA selectedA_reachable I).
  assert (H2 : cleanup (handleLocationChange "L2" selectedA).1 ≠ Some 0)
    by (vm_compute; discriminate).
  exact (conj H1 (conj H2 (only_latest_response_applies _ 0 (Fulfilled catalogueXY) H1 H2))).
Defined.

(** X17. Once a page in a reachable state has unmounted, no response
    changes it any more, neither one for sensors, of any run, nor the one
    for the locations. *)
Theorem unmounted_page_ignores_responses (st : State) :
  PageView.reachable st →
  let u := unmount st in
  (∀ run r, (fetchSensorsSettled run r u).1 = u) ∧
  (∀ r, (fetchLocationsSettled r u).1 = u).
Proof.
  intros Hr. cbn zeta. destruct (reachable_inv st Hr) as (_ & _ & _ & Hfl).
  pose proof (runCleanup_no_live st Hfl) as Hno. split.
  - intros run r. unfold fetchSensorsSettled, unmount.
    cbn [isMounted setClosures].
    destruct (isMounted (runCleanup st) !! run) as [[|]|] eqn:E; cbn.
    + by destruct (Hno run).
    + by destruct r.
    + by destruct r.
  - intros r. unfold fetchLocationsSettled, unmount. cbn. by destruct r.
Qed.

Lemma unmounted_page_ignores_responses_witness :
  PageView.reachable selectedA ∧
  (fetchSensorsSettled 0 (Fulfilled catalogueXY) (unmount selectedA)).1 = unmount selectedA.
Proof.
  exact (conj selectedA_reachable
           (proj1 (unmounted_page_ignores_responses selectedA selectedA_reachable)
              0 (Fulfilled catalogueXY))).
Defined.

(** ** The page and the data layer together *)

Lemma pickLocation_new importData k w st :
  selectedLocationId st ≠ Some k → k ≠ "" →
  pickLocation importData k (w, st) =
    ((getSensorsByLocation importData k w).2,
     (fetchSensorsSettled (length (isMounted st))
        (getSensorsByLocation importData k w).1 (handleLocationChange k st).1).1).
Proof.
  intros Hk Hne. unfold pickLocation.
  destruct (handleLocationChange_new k st Hk Hne) as (E & _). cbn zeta in E.
  destruct (handleLocationChange k st) as [st1 effs]. cbn in E. subst effs.
  by destruct (getSensorsByLocation importData k w).
Qed.

(** X18. The page cannot tell a failed load from an empty catalogue: when
    the import of the picked location fails, as when it gives no sensor, the
    list shows its empty state with nothing selected and no loading flag;
    after a failure the only trace is one console message of the data layer,
    and the key has no cache entry. *)
Theorem failed_load_shows_empty_state
    (importData : nat → string → option (list Sensor))
    (w : World) (st : State) (k : string) :
  selectedLocationId st ≠ Some k → k ≠ "" →
  sensorCache w !! k = None →
  importData (length (importLog w)) k = None ∨
  importData (length (importLog w)) k = Some [] →
  let w' := (pickLocation importData k (w, st)).1 in
  let st' := (pickLocation importData k (w, st)).2 in
  PageView.sensorList st' = SensorListView.EmptyState ∧
  sensors st' = [] ∧
  selectedSensorIds st' = JSSet.empty ∧
  isLoadingSensors st' = false ∧
  selectedLocationId st' = Some k ∧
  (importData (length (importLog w)) k = None →
     sensorCache w' !! k = None ∧
     consoleErrors w' = consoleErrors w ++ ["Failed to load sensors for location: " +:+ k]).
Proof.
  intros Hk Hne Hc Hsrc. cbn zeta. rewrite (pickLocation_new importData k w st Hk Hne).
  destruct (handleLocationChange_new k st Hk Hne) as (_ & H1 & _ & _ & _ & H5 & _).
  cbn zeta in H1, H5.
  assert (Hr : (getSensorsByLocation importData k w).1 = Fulfilled []).
  { destruct Hsrc as [Hs|Hs].
    - by rewrite (getSensorsByLocation_fail importData k w Hc Hs).
    - by rewrite (getSensorsByLocation_load importData k [] w Hc Hs). }
  rewrite Hr. cbn [fst snd].
  destruct (fetchSensorsSettled_mounted _ [] _ H5) as (F1 & F2 & F3 & F4 & _).
  cbn zeta in F1, F2, F3, F4.
  unfold PageView.sensorList, SensorListView.SensorListComponent.
  rewrite F1, F2, F3, F4, H1. split_and!; try done.
  intros Hs. by rewrite (getSensorsByLocation_fail importData k w Hc Hs).
Qed.

Lemma failed_load_shows_empty_state_witness :
  selectedLocationId readyL1.2 ≠ Some "L3" ∧ "L3" ≠ "" ∧
  sensorCache readyL1.1 !! "L3" = None ∧
  (sourceL1L2 (length (importLog readyL1.1)) "L3" = None ∨
   sourceL1L2 (length (importLog readyL1.1)) "L3" = Some []) ∧
  PageView.sensorList (pickLocation sourceL1L2 "L3" (readyL1.1, readyL1.2)).2
    = SensorListView.EmptyState.
Proof.
  assert (H1 : selectedLocationId readyL1.2 ≠ Some "L3") by (vm_compute; discriminate).
  assert (H2 : "L3" ≠ "") by discriminate.
  assert (H3 : sensorCache readyL1.1 !! "L3" = None) by (vm_compute; reflexivity).
  assert (H4 : sourceL1L2 (length (importLog readyL1.1)) "L3" = None ∨
               sourceL1L2 (length (importLog readyL1.1)) "L3" = Some [])
    by (left; reflexivity).
  exact (conj H1 (conj H2 (conj H3 (conj H4
    (proj1 (failed_load_shows_empty_state sourceL1L2 readyL1.1 readyL1.2 "L3"
              H1 H2 H3 H4)))))).
Defined.

(** X19. From mount to catalogue: once the page has mounted and the
    locations have arrived, picking any location of the list is served from
    the cache without an import; the card is titled with the derived name of
    the location, the sensors on display are the cached list, as many as the
    location announced, and nothing is selected or loading. *)
Theorem listed_location_opens
    (importData : nat → string → option (list Sensor)) (w : World) (loc : Location) :
  let m := PageView.mountApp importData w in
  loc ∈ locations m.2 →
  let p := pickLocation importData (id loc) m in
  p.1 = m.1 ∧
  PageView.selectedLocation p.2 = Some loc ∧
  PageView.cardTitle p.2 = formatLocationName (id loc) +:+ " Sensors" ∧
  sensorCache m.1 !! id loc = Some (sensors p.2) ∧
  length (sensors p.2) = sensorCount loc ∧
  selectedSensorIds p.2 = JSSet.empty ∧
  isLoadingSensors p.2 = false ∧
  isLoadingLocations p.2 = false.
Proof.
  cbn zeta. unfold PageView.mountApp, getLocations, LOCATION_FILES.
  destruct (importData (length (importLog w)) "SanDiego") as [l|] eqn:E.
  - rewrite (getLocationsLoop_cons_ok importData _ _ _ _ _ E).
    cbn [getLocationsLoop app].
    set (w1 := mkWorld (<["SanDiego":=l]> (sensorCache w)) (importLog w ++ ["SanDiego"])
                 (consoleErrors w)).
    set (loc0 := mkLocation "SanDiego" (formatLocationName "SanDiego") (length l)).
    assert (Hhit : getSensorsByLocation importData "SanDiego" w1 = (Fulfilled l, w1)).
    { apply getSensorsByLocation_hit. unfold w1. cbn. apply lookup_insert_eq. }
    intros Hin. cbn in Hin. apply list_elem_of_singleton in Hin. subst loc.
    change (id loc0) with "SanDiego".
    rewrite pickLocation_new by (cbn; discriminate).
    rewrite Hhit. cbn [fst snd].
    split_and!; try reflexivity.
    unfold w1. cbn. apply lookup_insert_eq.
  - rewrite (getLocationsLoop_cons_fail importData _ _ _ _ E).
    cbn. intros Hin. by apply elem_of_nil in Hin.
Qed.

Lemma listed_location_opens_witness :
  let src := λ (_ : nat) (_ : string), Some catalogueABC in
  let loc := mkLocation "SanDiego" "San Diego" 3 in
  let m := PageView.mountApp src emptyWorld in
  loc ∈ locations m.2 ∧
  (pickLocation src (id loc) m).1 = m.1.
Proof.
  cbn zeta.
  assert (H : mkLocation "SanDiego" "San Diego" 3
              ∈ locations (PageView.mountApp (λ _ _, Some catalogueABC) emptyWorld).2).
  { assert (E : locations (PageView.mountApp (λ _ _, Some catalogueABC) emptyWorld).2
                = [mkLocation "SanDiego" "San Diego" 3]) by (vm_compute; reflexivity).
    rewrite E. by apply list_elem_of_singleton. }
  exact (conj H (proj1 (listed_location_opens (λ _ _, Some catalogueABC) emptyWorld
                          (mkLocation "SanDiego" "San Diego" 3) H))).
Defined.

(** ** The page: rows and count *)





